(** * Kubb: schema-tree printing (plugin-zod) and path resolution (plugin-angular)

    A shallow embedding of

    - [packages/plugin-zod/src/parser.ts]: [zodKeywordMapper], [sort],
      [shouldCoerce] and [parse];
    - [packages/plugin-angular/src/plugin.ts]: [resolvePath];

    followed by the properties of these functions that the specification
    states.  Functions of other packages that the two files call
    ([@kubb/core/transformers], [SchemaGenerator.find], [FileManager.getMode],
    Node's [path.resolve]) are the fields of the class [Externals]. *)

From Stdlib Require Import Ascii.
From stdpp Require Import base option list strings gmap sorting.

Local Open Scope Z_scope.

(** ** JavaScript values *)

Module Js.

(** A JavaScript [number].  The two source files never compute with
    numbers: they only interpolate them into template literals and test
    their truthiness, so a number is identified with the text that
    [Number.prototype.toString] prints for it. *)
Record number : Type := Num { number_toString : string }.

(** [string | number | boolean] *)
Inductive primitive : Type :=
| PString (s : string)
| PNumber (n : number)
| PBoolean (b : bool).

(** The result of a call: it throws, or it returns a value. *)
Inductive completion (A : Type) : Type :=
| Throw
| Return (a : A).
Global Arguments Throw {A}.
Global Arguments Return {A} a.

(** Exceptions propagate: with these instances [x ← c; k] runs [k] when
    [c] returns, and [mapM f items] is [items.map(f)] for a callback that
    may throw. *)
Global Instance completion_ret : MRet completion := @Return.
Global Instance completion_bind : MBind completion := fun A B k c =>
  match c with
  | Throw => Throw
  | Return a => k a
  end.

Definition nonempty (s : string) : bool :=
  match s with
  | EmptyString => false
  | String _ _ => true
  end.

(** Truthiness. *)
Definition truthy_string (s : option string) : bool :=
  match s with
  | Some s => nonempty s
  | None => false
  end.

Definition truthy_boolean (b : option bool) : bool := default false b.

Definition truthy_number (n : number) : bool :=
  negb (String.eqb (number_toString n) "0" || String.eqb (number_toString n) "NaN").

Definition truthy (p : primitive) : bool :=
  match p with
  | PString s => nonempty s
  | PNumber n => truthy_number n
  | PBoolean b => b
  end.

(** [`${b}`] for a boolean. *)
Definition boolean_toString (b : bool) : string := if b then "true" else "false".

(** [`${p}`] *)
Definition template (p : primitive) : string :=
  match p with
  | PString s => s
  | PNumber n => number_toString n
  | PBoolean b => boolean_toString b
  end.

(** [`${s}`] for [s : string | undefined] *)
Definition template_string (s : option string) : string := default "undefined" s.

(** [`${p ?? ''}`] *)
Definition template_or_empty (p : option primitive) : string :=
  match p with
  | Some p => template p
  | None => EmptyString
  end.

(** [items.filter(Boolean)] on an array of [string | undefined]. *)
Definition filter_Boolean (items : list (option string)) : list string :=
  omap (fun s => match s with
                 | Some s => if nonempty s then Some s else None
                 | None => None
                 end) items.

(** [items.join(sep)] *)
Definition join (sep : string) (items : list string) : string := String.concat sep items.

(** [items.slice(0, 1)] and [items.slice(1)] *)
Definition slice_0_1 {A} (items : list A) : list A := take 1 items.
Definition slice_1 {A} (items : list A) : list A := drop 1 items.

(** [`${items}`] for an array of strings: [Array.prototype.toString] joins
    with a comma. *)
Definition template_array (items : list string) : string := join "," items.

(** [text.split(sep)] for a one-character separator: the pieces between the
    occurrences of the separator, at least one piece. *)
Fixpoint split (sep : Ascii.ascii) (text : string) : list string :=
  match text with
  | EmptyString => [EmptyString]
  | String c rest =>
      if Ascii.eqb c sep then EmptyString :: split sep rest
      else match split sep rest with
           | piece :: pieces => String c piece :: pieces
           | [] => [String c EmptyString]
           end
  end.

(** [items.indexOf(x)] *)
Fixpoint indexOf_from (x : string) (items : list string) (i : Z) : Z :=
  match items with
  | [] => -1
  | y :: rest => if String.eqb y x then i else indexOf_from x rest (i + 1)
  end.

Definition indexOf (items : list string) (x : string) : Z := indexOf_from x items 0.

Definition includes (items : list string) (x : string) : bool :=
  existsb (String.eqb x) items.

End Js.

Import Js.

(** Line feed and double quote, for the multi-line template literals. *)
Definition LF : string := String "010"%char EmptyString.
Definition DQ : string := String "034"%char EmptyString.

(** ** The schema tree ([Schema], [SchemaKeywordMapper] of @kubb/plugin-oas) *)

Inductive DateType : Type := type_date | type_string.

Inductive Format : Type := format_string | format_number | format_boolean.

(** An enum member, also the argument of a [const] node. *)
Record ConstArgs : Type := {
  const_name : primitive;
  const_format : Format;
  const_value : option primitive;
}.

Inductive DefaultArgs : Type :=
| default_primitive (p : primitive)
| default_object.

(** [Schema = { keyword: string } | SchemaKeywordMapper[keyof SchemaKeywordMapper]].
    [Bare] is the first alternative, a node with no [args] property: the
    nodes of the keywords that take no arguments ([string], [optional],
    [nullable], ...) and the nodes of keywords the mapper does not know.
    Strings in [Bare] are meant to be keywords, not names of members of
    [Object.prototype] ([zodKeywordMapper.inherited_keys]). *)
#[warnings="-register-all"]
Inductive Schema : Type :=
| Bare (keyword : string)
| KObject (properties : list (string * list Schema))
          (additionalProperties : list Schema) (strict : option bool)
| KArray (items : list Schema) (min max : option number) (unique : option bool)
| KTuple (items : list Schema)
| KEnum (asConst : bool) (items : list ConstArgs)
| KAnd (args : list Schema)
| KUnion (args : list Schema)
| KConst (args : ConstArgs)
| KRef (name : string) (ref : string) (path : option string) (isImportable : bool)
| KMatches (args : string)
| KDefault (args : DefaultArgs)
| KDescribe (args : string)
| KMin (args : number)
| KMax (args : number)
| KExample (args : string)
| KSchema (type : string) (format : option string)
| KName (args : string)
| KDatetime (offset local : option bool)
| KDate (type : option DateType)
| KTime (type : option DateType).

(** [schema.keyword] *)
Definition keyword (schema : Schema) : string :=
  match schema with
  | Bare k => k
  | KObject _ _ _ => "object"
  | KArray _ _ _ _ => "array"
  | KTuple _ => "tuple"
  | KEnum _ _ => "enum"
  | KAnd _ => "and"
  | KUnion _ => "union"
  | KConst _ => "const"
  | KRef _ _ _ _ => "ref"
  | KMatches _ => "matches"
  | KDefault _ => "default"
  | KDescribe _ => "describe"
  | KMin _ => "min"
  | KMax _ => "max"
  | KExample _ => "example"
  | KSchema _ _ => "schema"
  | KName _ => "name"
  | KDatetime _ _ => "datetime"
  | KDate _ => "date"
  | KTime _ => "time"
  end.

(** [isKeyword(meta, keyword)] is [meta.keyword === keyword]. *)
Definition isKeyword (meta : Schema) (k : string) : bool := String.eqb (keyword meta) k.

(** [SchemaTree] *)
Record SchemaTree : Type := {
  parent : option Schema;
  current : Schema;
  name : option string;
  siblings : list Schema;
}.

(** ** [transformers.orderBy]

    [orderBy] is not defined in the two files: @kubb/core/transformers
    re-exports it from a sorting library, where it is a stable sort on the
    given keys.  [sort] calls it with one numeric key and ['asc'], and that
    use is what is defined here: an element is inserted in front of the first
    element whose key is not smaller, and the elements are inserted from the
    last to the first, so that elements with equal keys keep the order of the
    input. *)
Section orderBy.
Context {A : Type} (key : A -> Z).

Fixpoint orderBy_insert (x : A) (sorted : list A) : list A :=
  match sorted with
  | [] => [x]
  | y :: rest =>
      if key x <=? key y then x :: y :: rest else y :: orderBy_insert x rest
  end.

Definition orderBy (items : list A) : list A := foldr orderBy_insert [] items.

(** The order of the keys. *)
Definition key_le (a b : A) : Prop := key a <= key b.
End orderBy.

(** ** [sort] *)

Definition order : list string :=
  [ "string"; "datetime"; "date"; "time"; "tuple"; "number"; "object"; "enum";
    "url"; "email"; "firstName"; "lastName"; "password"; "matches"; "uuid";
    "null"; "min"; "max"; "default"; "describe"; "optional"; "nullable";
    "nullish" ].

Definition sort_key (v : Schema) : Z := indexOf order (keyword v).

Definition sort (items : option (list Schema)) : list Schema :=
  match items with
  | None => []
  | Some items => orderBy sort_key items
  end.

(** *** The canonical order of siblings, in the words of the specification *)

(** The four groups of sibling nodes that the specification names. *)
Inductive SiblingGroup : Type :=
| primary_or_format
| bound_constraint
| default_or_describe
| optional_nullable_nullish.

Definition sibling_group (schema : Schema) : SiblingGroup :=
  let k := keyword schema in
  if includes ["min"; "max"] k then bound_constraint
  else if includes ["default"; "describe"] k then default_or_describe
  else if includes ["optional"; "nullable"; "nullish"] k then optional_nullable_nullish
  else primary_or_format.

(** The place of a group in the canonical order. *)
Definition group_position (g : SiblingGroup) : nat :=
  match g with
  | primary_or_format => 0
  | bound_constraint => 1
  | default_or_describe => 2
  | optional_nullable_nullish => 3
  end.

Definition canonical_le (a b : Schema) : Prop :=
  (group_position (sibling_group a) <= group_position (sibling_group b))%nat.

(** The group of a node is a monotone function of its sort key. *)
Definition group_of_key (i : Z) : SiblingGroup :=
  if i <? 16 then primary_or_format
  else if i <? 18 then bound_constraint
  else if i <? 20 then default_or_describe
  else optional_nullable_nullish.

(** ** [zodKeywordMapper] *)

Inductive Version : Type := v3 | v4.

Module zodKeywordMapper.

(** [[base, min !== undefined ? `.min(${min})` : undefined,
      max !== undefined ? `.max(${max})` : undefined].filter(Boolean).join('')] *)
Definition bounds (min max : option number) : list (option string) :=
  [ (fun v => ".min(" +:+ number_toString v +:+ ")") <$> min;
    (fun v => ".max(" +:+ number_toString v +:+ ")") <$> max ].

Definition any : string := "z.any()".
Definition unknown : string := "z.unknown()".
Definition void : string := "z.void()".

Definition number (coercion : option bool) (min max : option Js.number) : string :=
  join EmptyString (filter_Boolean
    (Some (if truthy_boolean coercion then "z.coerce.number()" else "z.number()")
     :: bounds min max)).

Definition integer (coercion : option bool) (min max : option Js.number)
    (version : Version) : string :=
  join EmptyString (filter_Boolean
    (Some (if truthy_boolean coercion then "z.coerce.number().int()"
           else match version with
                | v4 => "z.int()"
                | v3 => "z.number().int()"
                end)
     :: bounds min max)).

Definition interface (value : option string) (strict : option bool) : string :=
  if truthy_boolean strict
  then "z.strictInterface({" +:+ LF +:+ "    " +:+ template_string value +:+ LF +:+ "    })"
  else "z.interface({" +:+ LF +:+ "    " +:+ template_string value +:+ LF +:+ "    })".

Definition object (value : option string) (strict : option bool) (version : Version) : string :=
  match version, truthy_boolean strict with
  | v4, true =>
      "z.strictObject({" +:+ LF +:+ "    " +:+ template_string value +:+ LF +:+ "    })"
  | _, true =>
      "z.object({" +:+ LF +:+ "    " +:+ template_string value +:+ LF +:+ "    }).strict()"
  | _, false =>
      "z.object({" +:+ LF +:+ "    " +:+ template_string value +:+ LF +:+ "    })"
  end.

Definition string (coercion : option bool) (min max : option Js.number) : String.string :=
  join EmptyString (filter_Boolean
    (Some (if truthy_boolean coercion then "z.coerce.string()" else "z.string()")
     :: bounds min max)).

Definition boolean : String.string := "z.boolean()".
Definition undefined : String.string := "z.undefined()".
Definition nullable : String.string := ".nullable()".
Definition null : String.string := "z.null()".
Definition nullish : String.string := ".nullish()".

Definition array (items : list String.string) (min max : option Js.number)
    (unique : option bool) : String.string :=
  join EmptyString (filter_Boolean
    (Some ("z.array(" +:+ join EmptyString items +:+ ")")
     :: bounds min max
     ++ [ if truthy_boolean unique
          then Some (".refine(items => new Set(items).size === items.length, { message: "
                     +:+ DQ +:+ "Array entries must be unique" +:+ DQ +:+ " })")
          else None ])).

Definition tuple (items : list String.string) : String.string :=
  "z.tuple([" +:+ join ", " items +:+ "])".

Definition enum (items : list String.string) : String.string :=
  "z.enum([" +:+ join ", " items +:+ "])".

Definition union (items : list String.string) : String.string :=
  "z.union([" +:+ join ", " items +:+ "])".

Definition const (value : option primitive) : String.string :=
  "z.literal(" +:+ template_or_empty value +:+ ")".

Definition datetime (offset local : option bool) (version : Version) : String.string :=
  if truthy_boolean offset then
    match version with
    | v4 => "z.iso.datetime({ offset: " +:+ boolean_toString true +:+ " })"
    | v3 => "z.string().datetime({ offset: " +:+ boolean_toString true +:+ " })"
    end
  else if truthy_boolean local then
    match version with
    | v4 => "z.iso.datetime({ local: " +:+ boolean_toString true +:+ " })"
    | v3 => "z.string().datetime({ local: " +:+ boolean_toString true +:+ " })"
    end
  else "z.string().datetime()".

Definition date (type : option DateType) (coercion : option bool)
    (version : Version) : String.string :=
  match from_option id type_string type with
  | type_string =>
      match version with
      | v4 => "z.iso.date()"
      | v3 => "z.string().date()"
      end
  | type_date => if truthy_boolean coercion then "z.coerce.date()" else "z.date()"
  end.

Definition time (type : option DateType) (coercion : option bool)
    (version : Version) : String.string :=
  match from_option id type_string type with
  | type_string =>
      match version with
      | v4 => "z.iso.time()"
      | v3 => "z.string().time()"
      end
  | type_date => if truthy_boolean coercion then "z.coerce.date()" else "z.date()"
  end.

Definition uuid (coercion : option bool) (version : Version) : String.string :=
  match version with
  | v4 => if truthy_boolean coercion then "z.coerce.string().uuid()" else "z.uuid()"
  | v3 => if truthy_boolean coercion then "z.coerce.string().uuid()" else "z.string().uuid()"
  end.

Definition url (coercion : option bool) (version : Version) : String.string :=
  match version with
  | v4 => if truthy_boolean coercion then "z.coerce.string().url()" else "z.url()"
  | v3 => if truthy_boolean coercion then "z.coerce.string().url()" else "z.string().url()"
  end.

Definition default (value : option DefaultArgs) : String.string :=
  match value with
  | Some default_object => ".default({})"
  | Some (default_primitive p) => ".default(" +:+ template p +:+ ")"
  | None => ".default()"
  end.

Definition and (items : list String.string) : String.string :=
  join EmptyString ((fun item => ".and(" +:+ item +:+ ")") <$> items).

Definition describe (value : option String.string) : String.string :=
  ".describe(" +:+ from_option id EmptyString value +:+ ")".

Definition min (value : option Js.number) : String.string :=
  ".min(" +:+ template_or_empty (PNumber <$> value) +:+ ")".

Definition max (value : option Js.number) : String.string :=
  ".max(" +:+ template_or_empty (PNumber <$> value) +:+ ")".

Definition optional : String.string := ".optional()".

Definition matches (value : option String.string) (coercion : option bool) : String.string :=
  if truthy_boolean coercion
  then "z.coerce.string().regex(" +:+ from_option id EmptyString value +:+ ")"
  else "z.string().regex(" +:+ from_option id EmptyString value +:+ ")".

Definition email (coercion : option bool) (version : Version) : String.string :=
  match version with
  | v4 => if truthy_boolean coercion then "z.coerce.string().email()" else "z.email()"
  | v3 => if truthy_boolean coercion then "z.coerce.string().email()" else "z.string().email()"
  end.

Definition ref (value : option String.string) (version : Version) : option String.string :=
  if negb (truthy_string value) then None
  else match version with
       | v4 => value
       | v3 => Some ("z.lazy(() => " +:+ template_string value +:+ ")")
       end.

Definition blob : String.string := "z.instanceof(File)".

Definition catchall (value : option String.string) : option String.string :=
  if truthy_string value then Some (".catchall(" +:+ template_string value +:+ ")")
  else None.

(** The keys of the mapper whose value is a function; the other keys
    ([firstName], [lastName], [password], [phone], [readOnly],
    [writeOnly], [deprecated], [example], [schema], [name]) hold
    [undefined]. *)
Definition handlers : list String.string :=
  [ "any"; "unknown"; "void"; "number"; "integer"; "interface"; "object";
    "string"; "boolean"; "undefined"; "nullable"; "null"; "nullish"; "array";
    "tuple"; "enum"; "union"; "const"; "datetime"; "date"; "time"; "uuid";
    "url"; "default"; "and"; "describe"; "min"; "max"; "optional"; "matches";
    "email"; "ref"; "blob"; "catchall" ].

Definition undefined_keys : list String.string :=
  [ "firstName"; "lastName"; "password"; "phone"; "readOnly"; "writeOnly";
    "deprecated"; "example"; "schema"; "name" ].

(** The mapper is an object literal, so it inherits the members of
    [Object.prototype]: a lookup or an [in] test with one of these names
    finds the inherited member. *)
Definition inherited_keys : list String.string :=
  [ "constructor"; "__defineGetter__"; "__defineSetter__"; "hasOwnProperty";
    "__lookupGetter__"; "__lookupSetter__"; "isPrototypeOf";
    "propertyIsEnumerable"; "toString"; "valueOf"; "__proto__";
    "toLocaleString" ].

(** [!!zodKeywordMapper[keyword]], for a keyword that is not one of
    [inherited_keys]: the own keys that hold a function.  Nodes whose keyword
    is an inherited name are outside what [parse] below describes, and the
    properties that follow leave them out with [has_key] and [has_args]. *)
Definition has_handler (keyword : String.string) : bool := includes handlers keyword.

(** [keyword in zodKeywordMapper]: an own key, or an inherited one. *)
Definition has_key (keyword : String.string) : bool :=
  includes handlers keyword || includes undefined_keys keyword
  || includes inherited_keys keyword.

(** [zodKeywordMapper[keyword]()] for a key with a handler: every
    parameter is [undefined]. *)
Definition call_without_arguments (keyword : String.string) : option String.string :=
  if String.eqb keyword "any" then Some any
  else if String.eqb keyword "unknown" then Some unknown
  else if String.eqb keyword "void" then Some void
  else if String.eqb keyword "number" then Some (number None None None)
  else if String.eqb keyword "integer" then Some (integer None None None v3)
  else if String.eqb keyword "interface" then Some (interface None None)
  else if String.eqb keyword "object" then Some (object None None v3)
  else if String.eqb keyword "string" then Some (string None None None)
  else if String.eqb keyword "boolean" then Some boolean
  else if String.eqb keyword "undefined" then Some undefined
  else if String.eqb keyword "nullable" then Some nullable
  else if String.eqb keyword "null" then Some null
  else if String.eqb keyword "nullish" then Some nullish
  else if String.eqb keyword "array" then Some (array [] None None None)
  else if String.eqb keyword "tuple" then Some (tuple [])
  else if String.eqb keyword "enum" then Some (enum [])
  else if String.eqb keyword "union" then Some (union [])
  else if String.eqb keyword "const" then Some (const None)
  else if String.eqb keyword "datetime" then Some (datetime None None v3)
  else if String.eqb keyword "date" then Some (date None None v3)
  else if String.eqb keyword "time" then Some (time None None v3)
  else if String.eqb keyword "uuid" then Some (uuid None v3)
  else if String.eqb keyword "url" then Some (url None v3)
  else if String.eqb keyword "default" then Some (default None)
  else if String.eqb keyword "and" then Some (and [])
  else if String.eqb keyword "describe" then Some (describe None)
  else if String.eqb keyword "min" then Some (min None)
  else if String.eqb keyword "max" then Some (max None)
  else if String.eqb keyword "optional" then Some optional
  else if String.eqb keyword "matches" then Some (matches None None)
  else if String.eqb keyword "email" then Some (email None v3)
  else if String.eqb keyword "ref" then ref None v3
  else if String.eqb keyword "blob" then Some blob
  else if String.eqb keyword "catchall" then catchall None
  else None.

End zodKeywordMapper.

(** ** What the two files import *)

Inductive Mode : Type := mode_single | mode_split.

(** The packages of the repository that the two files call. *)
Class Kubb : Type := {
  (** [SchemaObject] of @kubb/oas, and [schema.properties?.[name]] *)
  SchemaObject : Type;
  SchemaObject_property : SchemaObject -> string -> option SchemaObject;
  (** [transformers.stringify(value)] *)
  stringify : option primitive -> string;
  (** [transformers.toRegExpString(text, null)] *)
  toRegExpString : string -> string;
  (** [pascalCase(text)] and [camelCase(text)] of @kubb/core/transformers;
      [camelCase] is also reached with [undefined]. *)
  pascalCase : string -> string;
  camelCase : option string -> string;
  (** [SchemaGenerator.find(items, keyword)] *)
  SchemaGenerator_find : list Schema -> string -> option Schema;
  (** [FileManager.getMode(path)] *)
  FileManager_getMode : string -> Mode;
}.

(** What the JavaScript runtime provides. *)
Class Runtime : Type := {
  (** [Number(text)] for a string *)
  Number_of_string : string -> number;
  (** [path.resolve(...paths)] of Node *)
  path_resolve : list string -> string;
}.

(** [Number(value)] *)
Definition Number `{Runtime} (value : primitive) : number :=
  match value with
  | PString s => Number_of_string s
  | PNumber n => n
  | PBoolean b => Num (if b then "1" else "0")
  end.

(** ** [shouldCoerce] and [ParserOptions] *)

Inductive Coercion : Type :=
| coercion_boolean (b : bool)
| coercion_object (dates strings numbers : option bool).

Inductive CoercionType : Type := dates | strings | numbers.

Definition shouldCoerce (coercion : option Coercion) (type : CoercionType) : bool :=
  match coercion with
  | None => false
  | Some (coercion_boolean b) => b
  | Some (coercion_object d s n) =>
      truthy_boolean match type with
                     | dates => d
                     | strings => s
                     | numbers => n
                     end
  end.

(** The argument of [options.wrapOutput]. *)
Record WrapOutput `{Kubb} : Type := {
  wrap_output : string;
  wrap_schema : option SchemaObject;
}.

Record ParserOptions `{Kubb} : Type := {
  options_name : string;
  typeName : option string;
  description : option string;
  keysToOmit : option (list string);
  mapper : option (gmap string string);
  coercion : option Coercion;
  wrapOutput : option (WrapOutput -> option string);
  rawSchema : SchemaObject;
  version : Version;
}.

(** ** [parse] *)

Section parse.
Context `{Kubb} `{Runtime}.

(** [schemas.find((schema) => schema.keyword === schemaKeywords.name)?.args] *)
Definition find_name_args (schemas : list Schema) : option string :=
  match List.find (fun schema => String.eqb (keyword schema) "name") schemas with
  | Some (KName args) => Some args
  | _ => None
  end.

(** [a || b] on strings *)
Definition or_string (a : option string) (b : string) : string :=
  match a with
  | Some a => if nonempty a then a else b
  | None => b
  end.

(** [siblings.some((schema) => isKeyword(schema, schemaKeywords.default))] *)
Definition some_default (siblings : list Schema) : bool :=
  existsb (fun schema => isKeyword schema "default") siblings.

(** The [const] branch. *)
Definition parse_const (args : ConstArgs) : string :=
  match const_format args, const_value args with
  | format_number, Some value => zodKeywordMapper.const (Some (PNumber (Number value)))
  | format_boolean, Some value => zodKeywordMapper.const (Some value)
  | _, value => zodKeywordMapper.const (Some (PString (stringify value)))
  end.

(** One property of an [object] node, given the printed siblings. *)
Definition print_property (options : ParserOptions) (name : string)
    (schemas : list Schema) (outputs : list (option string)) : string :=
  let baseSchemaOutput := join EmptyString (filter_Boolean outputs) in
  let objectValue :=
    match wrapOutput options with
    | Some wrap =>
        or_string
          (wrap {| wrap_output := baseSchemaOutput;
                   wrap_schema := SchemaObject_property (rawSchema options) name |})
          baseSchemaOutput
    | None => baseSchemaOutput
    end in
  match version options, SchemaGenerator_find schemas "ref" with
  | v4, Some _ =>
      "get " +:+ name +:+ "(){" +:+ LF +:+ "                return " +:+ objectValue
      +:+ LF +:+ "              }"
  | _, _ => DQ +:+ name +:+ DQ +:+ ": " +:+ objectValue
  end.

(** [parse], with a bound on the depth of the recursion.  [parse] below
    calls it with the height of the node, which is enough. *)
Fixpoint parse_fuel (fuel : nat) (tree : SchemaTree) (options : ParserOptions)
    : completion (option string) :=
  match fuel with
  | O => Throw
  | S fuel =>
    let parent := parent tree in
    let current := current tree in
    let name := name tree in
    let siblings := siblings tree in
    if negb (zodKeywordMapper.has_handler (keyword current)) then Return None
    else
    match current with
    | KUnion args =>
        match args with
        | [member] =>
            parse_fuel fuel
              {| parent := parent; name := name; current := member; siblings := siblings |}
              options
        | [] => Return (Some EmptyString)
        | _ =>
            let sorted := sort (Some args) in
            items ← mapM (fun schema =>
                parse_fuel fuel
                  {| parent := Some current; name := name; current := schema;
                     siblings := sorted |} options) sorted;
            Return (Some (zodKeywordMapper.union (filter_Boolean items)))
        end
    | KAnd args =>
        let members :=
          List.filter (fun schema => negb (includes ["optional"; "describe"] (keyword schema)))
            (sort (Some args)) in
        items ← mapM (fun schema =>
            parse_fuel fuel
              {| parent := Some current; name := name; current := schema;
                 siblings := members |} options) members;
        let items := filter_Boolean items in
        Return (Some (template_array (slice_0_1 items)
                      +:+ zodKeywordMapper.and (slice_1 items)))
    | KArray items min max unique =>
        let sorted := sort (Some items) in
        items ← mapM (fun schemas =>
            parse_fuel fuel
              {| parent := Some current; name := name; current := schemas;
                 siblings := sorted |} options) sorted;
        Return (Some (zodKeywordMapper.array (filter_Boolean items) min max unique))
    | KEnum asConst items =>
        if asConst then
          match items with
          | [item] =>
              let child := KConst item in
              parse_fuel fuel
                {| parent := Some current; name := name; current := child;
                   siblings := [child] |} options
          | _ =>
              let children := KConst <$> items in
              items ← mapM (fun schema =>
                  parse_fuel fuel
                    {| parent := Some current; name := name; current := schema;
                       siblings := children |} options) children;
              Return (Some (zodKeywordMapper.union (filter_Boolean items)))
          end
        else
          Return (Some (zodKeywordMapper.enum
            ((fun schema => stringify (const_value schema)) <$> items)))
    | KRef ref_name _ _ _ =>
        Return (zodKeywordMapper.ref (Some ref_name) (version options))
    | KObject properties additionalProperties strict =>
        properties ← mapM (fun '(name, schemas) =>
            let nameSchema := find_name_args schemas in
            let mappedName := or_string nameSchema name in
            let custom := mapper options ≫= (.!! mappedName) in
            if truthy_string custom
            then Return (DQ +:+ name +:+ DQ +:+ ": " +:+ template_string custom)
            else
              outputs ← mapM (fun schema =>
                  parse_fuel fuel
                    {| parent := Some current; name := Some name; current := schema;
                       siblings := schemas |} options) (sort (Some schemas));
              Return (print_property options name schemas outputs)) properties;
        let properties := join ("," +:+ LF) properties in
        additional ←
          match additionalProperties with
          | [] => Return None
          | _ =>
              outputs ← mapM (fun schema =>
                  parse_fuel fuel
                    {| parent := Some current; name := name; current := schema;
                       siblings := additionalProperties |} options) additionalProperties;
              Return (Some (join EmptyString (filter_Boolean outputs)))
          end;
        let text :=
          filter_Boolean
            [ Some (zodKeywordMapper.object (Some properties) strict (version options));
              if truthy_string additional then zodKeywordMapper.catchall additional
              else None ] in
        Return (Some (join EmptyString text))
    | KTuple items =>
        outputs ← mapM (fun schema =>
            parse_fuel fuel
              {| parent := Some current; name := name; current := schema;
                 siblings := items |} options) items;
        Return (Some (zodKeywordMapper.tuple (filter_Boolean outputs)))
    | KConst args => Return (Some (parse_const args))
    | KMatches args =>
        if nonempty args
        then Return (Some (zodKeywordMapper.matches (Some (toRegExpString args))
                             (Some (shouldCoerce (coercion options) strings))))
        else Return (Some (zodKeywordMapper.matches (Some args) None))
    | KDefault args =>
        if match args with
           | default_primitive p => truthy p
           | default_object => true
           end
        then Return (Some (zodKeywordMapper.default (Some args)))
        else Return (Some (zodKeywordMapper.default (Some args)))
    | KDescribe args =>
        if nonempty args
        then Return (Some (zodKeywordMapper.describe (Some (stringify (Some (PString args))))))
        else Return (Some (zodKeywordMapper.describe (Some args)))
    | KMin args => Return (Some (zodKeywordMapper.min (Some args)))
    | KMax args => Return (Some (zodKeywordMapper.max (Some args)))
    | KDatetime offset local =>
        Return (Some (zodKeywordMapper.datetime offset local (version options)))
    | KDate type =>
        Return (Some (zodKeywordMapper.date type
                        (Some (shouldCoerce (coercion options) dates)) (version options)))
    | KTime type =>
        Return (Some (zodKeywordMapper.time type
                        (Some (shouldCoerce (coercion options) dates)) (version options)))
    | KExample _ | KSchema _ _ | KName _ => Return None
    | Bare k =>
        (* a node without [args]: [current.args] is [undefined] *)
        if String.eqb k "union" then
          let sorted := sort None in
          items ← mapM (fun schema =>
              parse_fuel fuel
                {| parent := Some current; name := name; current := schema;
                   siblings := sorted |} options) sorted;
          Return (Some (zodKeywordMapper.union (filter_Boolean items)))
        else if String.eqb k "and" then
          let members :=
            List.filter (fun schema => negb (includes ["optional"; "describe"] (keyword schema)))
              (sort None) in
          items ← mapM (fun schema =>
              parse_fuel fuel
                {| parent := Some current; name := name; current := schema;
                   siblings := members |} options) members;
          let items := filter_Boolean items in
          Return (Some (template_array (slice_0_1 items)
                        +:+ zodKeywordMapper.and (slice_1 items)))
        else if String.eqb k "array" then Throw
        else if String.eqb k "enum" then Throw
        else if String.eqb k "ref" then Return (zodKeywordMapper.ref None (version options))
        else if String.eqb k "object" then
          let properties := join ("," +:+ LF) [] in
          let text :=
            filter_Boolean
              [ Some (zodKeywordMapper.object (Some properties) None (version options));
                None ] in
          Return (Some (join EmptyString text))
        else if String.eqb k "tuple" then Throw
        else if String.eqb k "const" then Throw
        else if String.eqb k "string" then
          Return (Some (zodKeywordMapper.string
                          (Some (shouldCoerce (coercion options) strings)) None None))
        else if String.eqb k "uuid" then
          Return (Some (zodKeywordMapper.uuid
                          (Some (shouldCoerce (coercion options) strings)) (version options)))
        else if String.eqb k "email" then
          Return (Some (zodKeywordMapper.email
                          (Some (shouldCoerce (coercion options) strings)) (version options)))
        else if String.eqb k "url" then
          Return (Some (zodKeywordMapper.url
                          (Some (shouldCoerce (coercion options) strings)) (version options)))
        else if String.eqb k "number" then
          Return (Some (zodKeywordMapper.number
                          (Some (shouldCoerce (coercion options) numbers)) None None))
        else if String.eqb k "integer" then
          Return (Some (zodKeywordMapper.integer
                          (Some (shouldCoerce (coercion options) numbers)) None None
                          (version options)))
        else if String.eqb k "min" then Return (Some (zodKeywordMapper.min None))
        else if String.eqb k "max" then Return (Some (zodKeywordMapper.max None))
        else if String.eqb k "datetime" then Throw
        else if String.eqb k "date" then Throw
        else if String.eqb k "time" then Throw
        else if String.eqb k "optional" then
          if some_default siblings then Return (Some EmptyString)
          else Return (zodKeywordMapper.call_without_arguments k)
        else if zodKeywordMapper.has_key k then
          Return (zodKeywordMapper.call_without_arguments k)
        else Return None
    end
  end.

(** The number of nested [parse] calls a node needs. *)
Fixpoint height (schema : Schema) : nat :=
  match schema with
  | KUnion args | KAnd args => S (max_list (height <$> args))
  | KArray items _ _ _ | KTuple items => S (max_list (height <$> items))
  | KEnum _ _ => 2
  | KObject properties additionalProperties _ =>
      S (max_list ((fun property => max_list (height <$> property.2)) <$> properties)
         `max` max_list (height <$> additionalProperties))
  | _ => 1
  end%nat.

Definition parse (tree : SchemaTree) (options : ParserOptions) : completion (option string) :=
  parse_fuel (height (current tree)) tree options.

End parse.

(** The members of an intersection that [parse] prints: the sorted
    arguments without the [optional] and [describe] nodes. *)
Definition and_members (args : list Schema) : list Schema :=
  List.filter (fun schema => negb (includes ["optional"; "describe"] (keyword schema)))
    (sort (Some args)).

(** One [.and(...)] application for each of the given outputs. *)
Fixpoint and_chain (others : list string) : string :=
  match others with
  | [] => EmptyString
  | item :: rest => ".and(" +:+ item +:+ ")" +:+ and_chain rest
  end.

(** ** [resolvePath] of the Angular plugin *)

(** [Group] of @kubb/core: [{ type, name? }]; the context that [name]
    receives is [{ group }]. *)
Inductive GroupType : Type :=
| group_tag
| group_path
| group_other (type : string).

Record GroupContext : Type := { ctx_group : option string }.

Record Group : Type := {
  group_type : GroupType;
  group_name : option (GroupContext -> string);
}.

(** [Output]: only its [path] is read. *)
Record Output : Type := { output_path : string }.

(** The options of the plugin that [resolvePath] closes over. *)
Record Options : Type := {
  output : option Output;
  group : option Group;
}.

(** [this.config]: [root] and [output.path]. *)
Record Config : Type := {
  config_root : string;
  config_output_path : string;
}.

(** [ResolvePathOptions] of @kubb/plugin-oas: [{ group?: { tag?, path? } }] *)
Record ResolveGroup : Type := {
  tag : option string;
  path : option string;
}.

Record ResolvePathOptions : Type := {
  options_group : option ResolveGroup;
}.

(** The segment of a path after its first ['/']: what follows the first
    ['/'], up to the next ['/'] or the end. *)
Fixpoint after_first (sep : ascii) (text : string) : option string :=
  match text with
  | EmptyString => None
  | String c rest => if Ascii.eqb c sep then Some rest else after_first sep rest
  end.

Fixpoint before_first (sep : ascii) (text : string) : string :=
  match text with
  | EmptyString => EmptyString
  | String c rest => if Ascii.eqb c sep then EmptyString else String c (before_first sep rest)
  end.

Definition segment_after_first_slash (path : string) : option string :=
  before_first "/" <$> after_first "/" path.

Section resolvePath.
Context `{Kubb} `{Runtime}.

(** [const { output = { path: 'services' }, group } = options] *)
Definition plugin_output (options : Options) : Output :=
  from_option id {| output_path := "services" |} (output options).

(** [options?.group?.path || options?.group?.tag] *)
Definition has_group_key (options : option ResolvePathOptions) : bool :=
  truthy_string ((options ≫= options_group) ≫= path)
  || truthy_string ((options ≫= options_group) ≫= tag).

(** [group.type === 'path' ? options.group.path! : options.group.tag!] *)
Definition group_key (group : Group) (options : option ResolvePathOptions) : option string :=
  match group_type group with
  | group_path => (options ≫= options_group) ≫= path
  | _ => (options ≫= options_group) ≫= tag
  end.

(** The default [groupName]; [ctx.group.split] throws on [undefined]. *)
Definition default_groupName (group : Group) (ctx : GroupContext) : completion string :=
  match group_type group with
  | group_path =>
      match ctx_group ctx with
      | Some key => Return (template_string (split "/" key !! 1%nat))
      | None => Throw
      end
  | group_tag => Return (pascalCase (template_string (ctx_group ctx) +:+ "Service"))
  | group_other _ => Return (camelCase (ctx_group ctx))
  end.

(** [group?.name ? group.name : (ctx) => ...] *)
Definition groupName (group : Group) (ctx : GroupContext) : completion string :=
  match group_name group with
  | Some name => Return (name ctx)
  | None => default_groupName group ctx
  end.

(** [const root = path.resolve(this.config.root, this.config.output.path)] *)
Definition resolve_root (config : Config) : string :=
  path_resolve [config_root config; config_output_path config].

(** [const mode = pathMode ?? FileManager.getMode(path.resolve(root, output.path))] *)
Definition resolve_mode (config : Config) (plugin_options : Options)
    (pathMode : option Mode) : Mode :=
  from_option id
    (FileManager_getMode
       (path_resolve [resolve_root config; output_path (plugin_output plugin_options)]))
    pathMode.

Definition resolvePath (config : Config) (plugin_options : Options)
    (baseName : string) (pathMode : option Mode) (options : option ResolvePathOptions)
    : completion string :=
  let output := plugin_output plugin_options in
  let root := resolve_root config in
  let mode := resolve_mode config plugin_options pathMode in
  match mode with
  | mode_single => Return (path_resolve [root; output_path output])
  | mode_split =>
      match group plugin_options with
      | Some group =>
          if has_group_key options then
            directory ← groupName group {| ctx_group := group_key group options |};
            Return (path_resolve [root; output_path output; directory; baseName])
          else Return (path_resolve [root; output_path output; baseName])
      | None => Return (path_resolve [root; output_path output; baseName])
      end
  end.

(** The directory of a group, from the key of the group and the [group]
    option of the plugin. *)
Definition group_directory (g : Group) (key : string) : string :=
  match group_name g with
  | Some name => name {| ctx_group := Some key |}
  | None =>
      match group_type g with
      | group_tag => pascalCase (key +:+ "Service")
      | group_path => template_string (segment_after_first_slash key)
      | group_other _ => camelCase (Some key)
      end
  end.

End resolvePath.

(** ** Stand-ins for the imports, to run the functions on concrete inputs *)

Module Sample.

Definition capitalize (text : string) : string :=
  match text with
  | String c rest =>
      let n := Ascii.nat_of_ascii c in
      if ((97 <=? n) && (n <=? 122))%nat
      then String (Ascii.ascii_of_nat (n - 32)) rest
      else text
  | EmptyString => EmptyString
  end.

#[export] Instance kubb : Kubb := {|
  SchemaObject := unit;
  SchemaObject_property := fun _ _ => None;
  stringify := fun value => DQ +:+ template_or_empty value +:+ DQ;
  toRegExpString := fun text => "/" +:+ text +:+ "/";
  pascalCase := capitalize;
  camelCase := template_string;
  SchemaGenerator_find := fun items k =>
    List.find (fun schema => String.eqb (keyword schema) k) items;
  FileManager_getMode := fun _ => mode_split;
|}.

#[export] Instance runtime : Runtime := {|
  Number_of_string := Num;
  path_resolve := join "/";
|}.

Definition options (v : Version) : ParserOptions := {|
  options_name := "pet";
  typeName := None;
  description := None;
  keysToOmit := None;
  mapper := None;
  coercion := None;
  wrapOutput := None;
  rawSchema := tt;
  version := v;
|}.

Definition tree (schema : Schema) (siblings : list Schema) : SchemaTree := {|
  parent := None;
  current := schema;
  name := None;
  siblings := siblings;
|}.

Definition pet_a : ConstArgs :=
  {| const_name := PString "a"; const_format := format_string;
     const_value := Some (PString "a") |}.

Definition pet_b : ConstArgs :=
  {| const_name := PString "b"; const_format := format_number;
     const_value := Some (PString "2") |}.

Definition pet_ref : Schema := KRef "Pet" "#/components/schemas/Pet" None true.

Definition by_path : Options :=
  {| output := None; group := Some {| group_type := group_path; group_name := None |} |}.

Definition app : Config := {| config_root := "/app"; config_output_path := "src/gen" |}.

Definition pets : option ResolvePathOptions :=
  Some {| options_group := Some {| tag := Some "pet"; path := Some "/pets/{id}" |} |}.

End Sample.


(** ** Vocabulary of the further properties *)

(** The fields of the options that [parse] reads: [mapper], [wrapOutput],
    [rawSchema], [version], and [coercion] through [shouldCoerce]. *)
Definition same_parser_options `{Kubb} (a b : ParserOptions) : Prop :=
  mapper a = mapper b
  ∧ (forall type, shouldCoerce (coercion a) type = shouldCoerce (coercion b) type)
  ∧ wrapOutput a = wrapOutput b
  ∧ rawSchema a = rawSchema b
  ∧ version a = version b.

(** The keywords whose branch of [parse] reads a field of [current.args]
    without a guard. *)
Definition reads_args : list string :=
  ["array"; "enum"; "tuple"; "const"; "datetime"; "date"; "time"].

(** No node of the tree is a node without [args] of one of these keywords,
    and no node has the name of an inherited member of the mapper for
    keyword (with such a name [parse] calls the inherited member, or what
    is not a function). *)
Fixpoint has_args (schema : Schema) : bool :=
  match schema with
  | Bare k =>
      negb (includes reads_args k) && negb (includes zodKeywordMapper.inherited_keys k)
  | KObject properties additionalProperties _ =>
      forallb (fun property : string * list Schema => forallb has_args property.2) properties
      && forallb has_args additionalProperties
  | KArray items _ _ _ | KTuple items => forallb has_args items
  | KAnd args | KUnion args => forallb has_args args
  | _ => true
  end.

(** * Properties *)

(** ** [orderBy] is a stable ascending sort *)

Section orderBy_facts.
Context {A : Type} (key : A -> Z).

Lemma orderBy_insert_Permutation (x : A) (sorted : list A) :
  orderBy_insert key x sorted ≡ₚ x :: sorted.
Proof.
  induction sorted as [|y rest IH]; simpl; [done|].
  destruct (key x <=? key y); [done|].
  rewrite IH. apply Permutation_swap.
Qed.

Lemma orderBy_Permutation (items : list A) : orderBy key items ≡ₚ items.
Proof.
  induction items as [|x rest IH]; simpl; [done|].
  by rewrite orderBy_insert_Permutation, IH.
Qed.

Lemma orderBy_insert_sorted (x : A) (sorted : list A) :
  StronglySorted (key_le key) sorted -> StronglySorted (key_le key) (orderBy_insert key x sorted).
Proof.
  induction 1 as [|y rest Hrest IH Hy]; simpl.
  - repeat constructor.
  - destruct (Z.leb_spec (key x) (key y)) as [Hle|Hgt].
    + constructor; [by constructor|].
      constructor; [done|].
      eapply Forall_impl; [exact Hy|]. unfold key_le. intros; lia.
    + constructor; [done|].
      rewrite orderBy_insert_Permutation. constructor; [|done].
      unfold key_le; lia.
Qed.

Lemma orderBy_sorted (items : list A) : StronglySorted (key_le key) (orderBy key items).
Proof.
  induction items as [|x rest IH]; simpl; [constructor|].
  by apply orderBy_insert_sorted.
Qed.

(** Elements with the same key keep the order of the input. *)
Lemma orderBy_insert_stable (k : Z) (x : A) (sorted : list A) :
  StronglySorted (key_le key) sorted ->
  List.filter (fun a => key a =? k) (orderBy_insert key x sorted)
  = List.filter (fun a => key a =? k) (x :: sorted).
Proof.
  induction 1 as [|y rest Hrest IH Hy]; [done|].
  cbn [orderBy_insert]. destruct (Z.leb_spec (key x) (key y)) as [Hle|Hgt]; [done|].
  cbn [List.filter] in *. rewrite IH.
  destruct (Z.eqb_spec (key x) k), (Z.eqb_spec (key y) k); try done. lia.
Qed.

Lemma orderBy_stable (k : Z) (items : list A) :
  List.filter (fun a => key a =? k) (orderBy key items)
  = List.filter (fun a => key a =? k) items.
Proof.
  induction items as [|x rest IH]; [done|].
  cbn [orderBy foldr]. rewrite orderBy_insert_stable by apply orderBy_sorted.
  cbn [List.filter]. fold (orderBy key rest). by rewrite IH.
Qed.

(** The keys of the result depend on the keys of the input only as a
    multiset. *)
Lemma orderBy_keys_Permutation (items items' : list A) :
  items ≡ₚ items' -> key <$> orderBy key items = key <$> orderBy key items'.
Proof.
  intros Hperm.
  apply (StronglySorted_unique Z.le).
  - generalize (orderBy_sorted items). induction 1; constructor; [done|].
    by apply Forall_fmap.
  - generalize (orderBy_sorted items'). induction 1; constructor; [done|].
    by apply Forall_fmap.
  - by rewrite !orderBy_Permutation, Hperm.
Qed.

End orderBy_facts.

(** ** The canonical order of siblings *)

Lemma sibling_group_sort_key (schema : Schema) :
  sibling_group schema = group_of_key (sort_key schema).
Proof.
  unfold sibling_group, sort_key. generalize (keyword schema) as k. intros k.
  unfold indexOf, order, includes. cbn [indexOf_from existsb].
  repeat match goal with
         | |- context [String.eqb ?s k] =>
             destruct (String.eqb_spec s k) as [<-|?]; [reflexivity|]
         end.
  repeat match goal with
         | |- context [String.eqb k ?s] =>
             destruct (String.eqb_spec k s) as [->|?]; [congruence|]
         end.
  reflexivity.
Qed.

Lemma group_of_key_mono (i j : Z) :
  i <= j -> (group_position (group_of_key i) <= group_position (group_of_key j))%nat.
Proof.
  intros Hij. unfold group_of_key.
  repeat match goal with
         | |- context [?a <? ?b] => destruct (Z.ltb_spec a b)
         end; simpl; lia.
Qed.

Lemma sort_sorted (items : list Schema) : StronglySorted canonical_le (sort (Some items)).
Proof.
  simpl. generalize (orderBy_sorted sort_key items).
  induction 1 as [|x rest Hrest IH Hx]; constructor; [done|].
  eapply Forall_impl; [exact Hx|]. intros y Hxy. unfold canonical_le.
  rewrite !sibling_group_sort_key. by apply group_of_key_mono.
Qed.

(** C1.  [sort] puts every list of siblings in the canonical order: the
    result has the nodes of the input, the primary and format nodes first,
    then the bounds ([min], [max]), then [default] and [describe], then
    [optional], [nullable] and [nullish]; and the sequence of groups (even of
    sort keys) of the result is the same for every order in which the input
    lists the nodes. *)
Theorem sort_canonical_order (items items' : list Schema) :
  items ≡ₚ items' ->
  sort (Some items) ≡ₚ items
  ∧ StronglySorted canonical_le (sort (Some items))
  ∧ sort_key <$> sort (Some items) = sort_key <$> sort (Some items')
  ∧ sibling_group <$> sort (Some items) = sibling_group <$> sort (Some items').
Proof.
  intros Hperm. split; [apply orderBy_Permutation|].
  split; [apply sort_sorted|].
  assert (Hkeys : sort_key <$> sort (Some items) = sort_key <$> sort (Some items'))
    by by apply orderBy_keys_Permutation.
  split; [done|].
  assert (Hext : forall l : list Schema,
            sibling_group <$> l = group_of_key <$> (sort_key <$> l)).
  { intros l. rewrite <- list_fmap_compose. apply list_fmap_ext.
    intros ? x _. apply sibling_group_sort_key. }
  by rewrite !Hext, Hkeys.
Qed.

Lemma sort_canonical_order_witness :
  sort (Some [Bare "optional"; KMin (Num "1"); KDescribe "id"; Bare "string"])
    ≡ₚ [Bare "optional"; KMin (Num "1"); KDescribe "id"; Bare "string"]
  ∧ StronglySorted canonical_le
      (sort (Some [Bare "optional"; KMin (Num "1"); KDescribe "id"; Bare "string"]))
  ∧ sort_key <$> sort (Some [Bare "optional"; KMin (Num "1"); KDescribe "id"; Bare "string"])
    = sort_key <$> sort (Some [Bare "string"; KDescribe "id"; Bare "optional"; KMin (Num "1")])
  ∧ sibling_group <$> sort (Some [Bare "optional"; KMin (Num "1"); KDescribe "id"; Bare "string"])
    = sibling_group <$> sort (Some [Bare "string"; KDescribe "id"; Bare "optional"; KMin (Num "1")]).
Proof.
  apply (sort_canonical_order
           [Bare "optional"; KMin (Num "1"); KDescribe "id"; Bare "string"]
           [Bare "string"; KDescribe "id"; Bare "optional"; KMin (Num "1")]).
  apply (Permutation_cons_app [Bare "string"; KDescribe "id"] [KMin (Num "1")]).
  apply (Permutation_cons_app [Bare "string"; KDescribe "id"] []).
  apply (Permutation_cons_app [Bare "string"] []).
  reflexivity.
Defined.

(** ** [parse] does not depend on the bound *)

Lemma mapM_completion_ext {A B} (f g : A -> completion B) (items : list A) :
  (forall x, x ∈ items -> f x = g x) -> mapM f items = mapM g items.
Proof.
  induction items as [|x rest IH]; intros Hext; [done|].
  cbn [mapM]. rewrite (Hext x) by left.
  rewrite IH; [done|]. intros y Hy. apply Hext. by right.
Qed.

Lemma bind_completion_ext {A B} (c c' : completion A) (k k' : A -> completion B) :
  c = c' -> (forall a, k a = k' a) -> c ≫= k = c' ≫= k'.
Proof. intros <- Hk. destruct c; [done|]. apply Hk. Qed.

Lemma mapM_completion_Return {A B} (f : A -> B) (items : list A) :
  mapM (fun x => Return (f x)) items = Return (f <$> items).
Proof.
  induction items as [|x rest IH]; [done|].
  cbn [mapM]. by rewrite IH.
Qed.

Lemma elem_of_sort (schema : Schema) (items : list Schema) :
  schema ∈ sort (Some items) <-> schema ∈ items.
Proof. simpl. by rewrite orderBy_Permutation. Qed.

Lemma sort_singleton (schema : Schema) : sort (Some [schema]) = [schema].
Proof. reflexivity. Qed.

Section parse_facts.
Context `{Kubb} `{Runtime}.

Lemma height_pos (schema : Schema) : (1 <= height schema)%nat.
Proof. destruct schema; simpl; lia. Qed.

Lemma height_elem_of (schema : Schema) (items : list Schema) :
  schema ∈ items -> (height schema <= max_list (height <$> items))%nat.
Proof. intros Hin. apply max_list_elem_of_le. by apply list_elem_of_fmap_2. Qed.

Lemma height_elem_of_sort (schema : Schema) (items : list Schema) :
  schema ∈ sort (Some items) -> (height schema <= max_list (height <$> items))%nat.
Proof. rewrite elem_of_sort. apply height_elem_of. Qed.

Lemma height_elem_of_filter_sort (keep : Schema -> bool) (schema : Schema)
    (items : list Schema) :
  schema ∈ List.filter keep (sort (Some items)) ->
  (height schema <= max_list (height <$> items))%nat.
Proof.
  rewrite list_elem_of_In, filter_In, <- list_elem_of_In.
  intros [Hin _]. by apply height_elem_of_sort.
Qed.

Lemma height_property (schema : Schema) (name : string) (schemas : list Schema)
    (properties : list (string * list Schema)) :
  (name, schemas) ∈ properties -> schema ∈ sort (Some schemas) ->
  (height schema
   <= max_list ((fun property => max_list (height <$> property.2)) <$> properties))%nat.
Proof.
  intros Hprop Hin. etrans; [by apply height_elem_of_sort|].
  apply max_list_elem_of_le.
  by apply (list_elem_of_fmap_2
              (fun property : string * list Schema => max_list (height <$> property.2))
              properties (name, schemas)).
Qed.

Local Ltac solve_height IH :=
  apply IH; cbn [current];
  first
    [ match goal with
      | Hin : _ ∈ sort (Some _) |- _ => apply height_elem_of_sort in Hin; lia
      end
    | match goal with
      | Hin : _ ∈ List.filter _ (sort (Some _)) |- _ =>
          apply height_elem_of_filter_sort in Hin; lia
      end
    | match goal with
      | Hin : _ ∈ _ |- _ => apply height_elem_of in Hin; lia
      end ].

Lemma parse_fuel_stable (n m : nat) (tree : SchemaTree) (options : ParserOptions) :
  (height (current tree) <= n)%nat -> (height (current tree) <= m)%nat ->
  parse_fuel n tree options = parse_fuel m tree options.
Proof.
  revert m tree. induction n as [|n IH]; intros m [p c nm sibs] Hn Hm; cbn [current] in *.
  { pose proof (height_pos c). lia. }
  destruct m as [|m]; [pose proof (height_pos c); lia|].
  cbn [parse_fuel current parent name siblings].
  destruct (negb (zodKeywordMapper.has_handler (keyword c))); [done|].
  destruct c; try reflexivity; cbn [height] in Hn, Hm.
  - (* KObject *)
    apply bind_completion_ext.
    + apply mapM_completion_ext. intros [pname schemas] Hprop.
      destruct (truthy_string _); [done|].
      f_equal. apply mapM_completion_ext. intros x Hx.
      apply IH; cbn [current]; pose proof (height_property _ _ _ _ Hprop Hx); lia.
    + intros props. f_equal.
      destruct additionalProperties as [|a rest]; [done|].
      f_equal. apply mapM_completion_ext. intros x Hx. solve_height IH.
  - (* KArray *)
    f_equal. apply mapM_completion_ext. intros x Hx. solve_height IH.
  - (* KTuple *)
    f_equal. apply mapM_completion_ext. intros x Hx. solve_height IH.
  - (* KEnum *)
    destruct asConst; [|done].
    destruct items as [|item [|item' rest]].
    + done.
    + apply IH; cbn; lia.
    + f_equal. apply mapM_completion_ext. intros x Hx.
      apply IH; cbn [current].
      all: apply list_elem_of_fmap in Hx as (? & -> & _); cbn; lia.
  - (* KAnd *)
    f_equal. apply mapM_completion_ext. intros x Hx. solve_height IH.
  - (* KUnion *)
    destruct args as [|a [|b rest]]; [done| |].
    + apply IH; cbn [current]; cbn in Hn, Hm; lia.
    + f_equal. apply mapM_completion_ext. intros x Hx. solve_height IH.
Qed.

End parse_facts.

(** ** What [parse] prints *)

Section parse_properties.
Context `{Kubb} `{Runtime}.

Lemma parse_fuel_parse (n : nat) (tree : SchemaTree) (options : ParserOptions) :
  (height (current tree) <= n)%nat -> parse_fuel n tree options = parse tree options.
Proof. intros Hn. by apply parse_fuel_stable. Qed.

(** The first step of [parse]: a keyword without a handler. *)
Lemma parse_no_handler (tree : SchemaTree) (options : ParserOptions) :
  zodKeywordMapper.has_handler (keyword (current tree)) = false ->
  parse tree options = Return None.
Proof.
  intros Hvalue. unfold parse.
  destruct (height (current tree)) as [|n] eqn:Hheight.
  { pose proof (height_pos (current tree)). lia. }
  cbn [parse_fuel]. by rewrite Hvalue.
Qed.

(** C2.  A union of one member prints what the member prints in the place
    of the union (same parent, name and siblings), and a union of no member
    prints the empty string: no [z.union] and no exception. *)
Theorem parse_union_collapse (p : option Schema) (nm : option string)
    (sibs : list Schema) (member : Schema) (options : ParserOptions) :
  parse {| parent := p; current := KUnion [member]; name := nm; siblings := sibs |} options
  = parse {| parent := p; current := member; name := nm; siblings := sibs |} options
  ∧ parse {| parent := p; current := KUnion []; name := nm; siblings := sibs |} options
    = Return (Some EmptyString).
Proof.
  split; [|reflexivity].
  unfold parse at 1. cbn [current height fmap list_fmap max_list_with].
  cbn [parse_fuel current parent name siblings].
  change (zodKeywordMapper.has_handler (keyword (KUnion [member]))) with true.
  cbn [negb]. apply parse_fuel_parse. cbn [current id]. lia.
Qed.

(** C8.  A node whose keyword is not a key of the mapper (it is not [in] the
    mapper: neither an own key nor a name that the object literal inherits),
    or is a key that holds [undefined], prints nothing: [parse] returns
    [undefined] and does not throw. *)
Theorem parse_unmapped_keyword (tree : SchemaTree) (options : ParserOptions) :
  zodKeywordMapper.has_key (keyword (current tree)) = false
  ∨ keyword (current tree) ∈ zodKeywordMapper.undefined_keys ->
  parse tree options = Return None.
Proof.
  intros Hkey. apply parse_no_handler.
  destruct Hkey as [Habsent|Hundefined].
  - unfold zodKeywordMapper.has_key in Habsent.
    apply orb_false_iff in Habsent as [Hown _].
    by apply orb_false_iff in Hown as [? _].
  - unfold zodKeywordMapper.undefined_keys in Hundefined.
    repeat (apply elem_of_cons in Hundefined as [->|Hundefined]; [reflexivity|]).
    by apply elem_of_nil in Hundefined.
Qed.

(** C9.  A reference node with a name prints the name and nothing of the
    schema it refers to: [z.lazy(() => name)] for version 3, [name] for
    version 4.  Without a name (an empty name, or no [args]) it prints
    nothing. *)
Theorem parse_ref_by_name (p : option Schema) (nm : option string) (sibs : list Schema)
    (ref_name ref : string) (path : option string) (isImportable : bool)
    (options : ParserOptions) :
  ref_name ≠ EmptyString ->
  parse {| parent := p; current := KRef ref_name ref path isImportable; name := nm;
           siblings := sibs |} options
  = Return (Some match version options with
                 | v3 => "z.lazy(() => " +:+ ref_name +:+ ")"
                 | v4 => ref_name
                 end)
  ∧ parse {| parent := p; current := KRef EmptyString ref path isImportable; name := nm;
             siblings := sibs |} options
    = Return None
  ∧ parse {| parent := p; current := Bare "ref"; name := nm; siblings := sibs |} options
    = Return None.
Proof.
  intros Hname. repeat split; try reflexivity.
  unfold parse. cbn. unfold zodKeywordMapper.ref. cbn.
  destruct ref_name; [done|]. cbn. by destruct (version options).
Qed.

Lemma some_default_Exists (sibs : list Schema) :
  some_default sibs = true <-> Exists (fun schema => keyword schema = "default") sibs.
Proof.
  unfold some_default, isKeyword. rewrite existsb_exists, Exists_exists.
  split; intros (schema & Hin & Hk); exists schema.
  - by rewrite list_elem_of_In, <- String.eqb_eq.
  - by rewrite <- list_elem_of_In, String.eqb_eq.
Qed.

(** C10.  An [optional] node prints the empty string when one of its
    siblings is a [default] node, and [.optional()] when none is. *)
Theorem parse_optional_default (p : option Schema) (nm : option string)
    (sibs : list Schema) (options : ParserOptions) :
  (Exists (fun schema => keyword schema = "default") sibs ->
   parse {| parent := p; current := Bare "optional"; name := nm; siblings := sibs |} options
   = Return (Some EmptyString))
  ∧ (¬ Exists (fun schema => keyword schema = "default") sibs ->
     parse {| parent := p; current := Bare "optional"; name := nm; siblings := sibs |} options
     = Return (Some ".optional()")).
Proof.
  rewrite <- some_default_Exists. unfold parse. cbn.
  fold (some_default sibs).
  destruct (some_default sibs); split; intros Hdefault; done.
Qed.

Lemma append_empty_r (s : string) : s +:+ EmptyString = s.
Proof.
  induction s as [|c s IH]; [done|].
  change (String c (s +:+ EmptyString) = String c s). by rewrite IH.
Qed.

Lemma append_assoc (s1 s2 s3 : string) : (s1 +:+ s2) +:+ s3 = s1 +:+ s2 +:+ s3.
Proof.
  induction s1 as [|c s1 IH]; [done|].
  change (String c ((s1 +:+ s2) +:+ s3) = String c (s1 +:+ s2 +:+ s3)). by rewrite IH.
Qed.

Lemma join_empty_cons (x : string) (rest : list string) :
  join EmptyString (x :: rest) = x +:+ join EmptyString rest.
Proof.
  unfold join. destruct rest; cbn [String.concat]; [by rewrite append_empty_r|done].
Qed.

Lemma and_and_chain (items : list string) : zodKeywordMapper.and items = and_chain items.
Proof.
  unfold zodKeywordMapper.and. induction items as [|item rest IH]; [done|].
  rewrite fmap_cons, join_empty_cons, IH. cbn [and_chain].
  by rewrite !append_assoc.
Qed.

Lemma parse_and (p : option Schema) (nm : option string) (sibs : list Schema)
    (args : list Schema) (options : ParserOptions) :
  parse {| parent := p; current := KAnd args; name := nm; siblings := sibs |} options
  = items ← mapM (fun schema =>
        parse {| parent := Some (KAnd args); current := schema; name := nm;
                 siblings := and_members args |} options) (and_members args);
    Return (Some (template_array (slice_0_1 (filter_Boolean items))
                  +:+ zodKeywordMapper.and (slice_1 (filter_Boolean items)))).
Proof.
  unfold parse at 1. cbn [current height].
  cbn [parse_fuel current parent name siblings].
  change (zodKeywordMapper.has_handler (keyword (KAnd args))) with true. cbn [negb].
  apply bind_completion_ext; [|done].
  apply mapM_completion_ext. intros x Hx. apply parse_fuel_parse. cbn [current].
  by apply height_elem_of_filter_sort in Hx.
Qed.

(** C7.  When the members of an intersection resolve to the outputs [outs]:
    if exactly one of them is not empty, [parse] prints that output and no
    [.and]; if two or more are, it prints the first followed by one
    [.and(...)] for each of the others. *)
Theorem parse_and_chain (p : option Schema) (nm : option string) (sibs : list Schema)
    (args : list Schema) (options : ParserOptions) (outs : list (option string)) :
  mapM (fun schema =>
      parse {| parent := Some (KAnd args); current := schema; name := nm;
               siblings := and_members args |} options) (and_members args)
  = Return outs ->
  (forall only, filter_Boolean outs = [only] ->
     parse {| parent := p; current := KAnd args; name := nm; siblings := sibs |} options
     = Return (Some only))
  ∧ (forall first second others, filter_Boolean outs = first :: second :: others ->
       parse {| parent := p; current := KAnd args; name := nm; siblings := sibs |} options
       = Return (Some (first +:+ and_chain (second :: others)))).
Proof.
  intros Houts. rewrite parse_and, Houts. cbn [mbind completion_bind].
  split.
  - intros only ->. cbn. by rewrite append_empty_r.
  - intros first second others ->.
    cbn [slice_0_1 slice_1 take drop template_array join String.concat].
    by rewrite and_and_chain.
Qed.

(** A [const] node prints a literal, whatever the bound. *)
Lemma parse_const_nonempty (args : ConstArgs) : nonempty (parse_const args) = true.
Proof. unfold parse_const. by destruct (const_format args), (const_value args). Qed.

Lemma mapM_parse_const (n : nat) (p : option Schema) (nm : option string)
    (sibs : list Schema) (items : list ConstArgs) (options : ParserOptions) :
  mapM (fun schema =>
      parse_fuel (S n) {| parent := p; current := schema; name := nm; siblings := sibs |}
        options) (KConst <$> items)
  = Return ((fun item => Some (parse_const item)) <$> items).
Proof.
  induction items as [|item rest IH]; [done|].
  rewrite !fmap_cons. cbn [mapM]. rewrite IH. reflexivity.
Qed.

Lemma filter_Boolean_parse_const (items : list ConstArgs) :
  filter_Boolean ((fun item => Some (parse_const item)) <$> items) = parse_const <$> items.
Proof.
  induction items as [|item rest IH]; [done|].
  rewrite !fmap_cons. unfold filter_Boolean in *. cbn [omap list_omap].
  by rewrite parse_const_nonempty, IH.
Qed.

(** C6, as the code has it.  With [asConst] and exactly one member an enum
    node prints what the [const] node of that member prints, a literal; with
    [asConst] and any other number of members (none, or two or more) it
    prints a union of the literals of the members; without [asConst] it
    prints one [z.enum] over the serialized values of the members.  The
    members keep their order. *)
Theorem parse_enum (p : option Schema) (nm : option string) (sibs : list Schema)
    (asConst : bool) (items : list ConstArgs) (options : ParserOptions) :
  (forall item, asConst = true -> items = [item] ->
     parse {| parent := p; current := KEnum asConst items; name := nm; siblings := sibs |}
       options
     = parse {| parent := Some (KEnum asConst items); current := KConst item; name := nm;
                siblings := [KConst item] |} options
     ∧ parse {| parent := p; current := KEnum asConst items; name := nm; siblings := sibs |}
         options
       = Return (Some (parse_const item)))
  ∧ (asConst = true -> length items ≠ 1%nat ->
     parse {| parent := p; current := KEnum asConst items; name := nm; siblings := sibs |}
       options
     = Return (Some ("z.union([" +:+ join ", " (parse_const <$> items) +:+ "])")))
  ∧ (asConst = false ->
     parse {| parent := p; current := KEnum asConst items; name := nm; siblings := sibs |}
       options
     = Return (Some ("z.enum([" +:+ join ", "
                       ((fun item => stringify (const_value item)) <$> items) +:+ "])"))).
Proof.
  split; [|split].
  - by intros item -> ->.
  - intros -> Hlength. unfold parse. cbn [current height].
    remember 1%nat as fuel eqn:Hfuel.
    cbn [parse_fuel current parent name siblings].
    change (zodKeywordMapper.has_handler (keyword (KEnum true items))) with true.
    cbn [negb]. destruct items as [|item [|item' rest]]; [done|done|].
    subst fuel. rewrite mapM_parse_const. cbn [mbind completion_bind].
    by rewrite filter_Boolean_parse_const.
  - by intros ->.
Qed.

End parse_properties.

(** ** Where [resolvePath] puts a file *)

Lemma split_before_after (sep : ascii) (text : string) :
  split sep text = before_first sep text :: from_option (split sep) [] (after_first sep text).
Proof.
  induction text as [|c rest IH]; [done|].
  cbn [split before_first after_first].
  destruct (Ascii.eqb c sep); [done|]. by rewrite IH.
Qed.

Lemma split_second (path : string) :
  split "/" path !! 1%nat = segment_after_first_slash path.
Proof.
  unfold segment_after_first_slash. rewrite split_before_after.
  destruct (after_first "/" path) as [rest|]; [|done].
  cbn [from_option id fmap option_fmap option_map]. by rewrite split_before_after.
Qed.

Section resolvePath_properties.
Context `{Kubb} `{Runtime}.

Lemma groupName_group_directory (g : Group) (key : string) :
  groupName g {| ctx_group := Some key |} = Return (group_directory g key).
Proof.
  unfold groupName, group_directory, default_groupName.
  destruct (group_name g); [done|].
  destruct (group_type g); cbn [ctx_group template_string from_option id]; [done| |done].
  by rewrite split_second.
Qed.

(** A key that is not empty selects the branch of the groups. *)
Lemma has_group_key_true (g : Group) (options : option ResolvePathOptions) (key : string) :
  key ≠ EmptyString -> group_key g options = Some key -> has_group_key options = true.
Proof.
  intros Hkey. unfold group_key, has_group_key.
  destruct key; [done|].
  destruct (group_type g); intros ->; cbn [truthy_string nonempty]; auto using orb_true_r.
Qed.

(** C4.  In mode [single], [resolvePath] returns the output path of the
    plugin resolved against the root of the build, for every base name and
    every option of the call. *)
Theorem resolvePath_single (config : Config) (plugin_options : Options)
    (pathMode : option Mode) :
  resolve_mode config plugin_options pathMode = mode_single ->
  forall (baseName : string) (options : option ResolvePathOptions),
    resolvePath config plugin_options baseName pathMode options
    = Return (path_resolve [resolve_root config; output_path (plugin_output plugin_options)]).
Proof. intros Hmode baseName options. unfold resolvePath. by rewrite Hmode. Qed.

(** C5.  With a [group] option and a mode other than [single], two calls
    whose options carry the same key put their files in the same directory,
    whatever their base names and the rest of their options.  For a group by
    tag the key is [options.group.tag] and the directory is [pascalCase] of
    the tag followed by [Service]; for a group by path the key is
    [options.group.path] and the directory is the segment after the first
    ['/'] of the path; when the plugin gives [group.name], the directory is
    [group.name] of the key. *)
Theorem resolvePath_group_directory (config : Config) (plugin_options : Options)
    (g : Group) (pathMode : option Mode) (key : string)
    (baseName1 baseName2 : string) (other1 other2 : option string) :
  group plugin_options = Some g ->
  resolve_mode config plugin_options pathMode = mode_split ->
  key ≠ EmptyString ->
  (group_type g = group_tag ->
   resolvePath config plugin_options baseName1 pathMode
     (Some {| options_group := Some {| tag := Some key; path := other1 |} |})
   = Return (path_resolve [resolve_root config;
                           output_path (plugin_output plugin_options);
                           match group_name g with
                           | Some name => name {| ctx_group := Some key |}
                           | None => pascalCase (key +:+ "Service")
                           end;
                           baseName1])
   ∧ resolvePath config plugin_options baseName2 pathMode
       (Some {| options_group := Some {| tag := Some key; path := other2 |} |})
     = Return (path_resolve [resolve_root config;
                             output_path (plugin_output plugin_options);
                             match group_name g with
                             | Some name => name {| ctx_group := Some key |}
                             | None => pascalCase (key +:+ "Service")
                             end;
                             baseName2]))
  ∧ (group_type g = group_path ->
     resolvePath config plugin_options baseName1 pathMode
       (Some {| options_group := Some {| tag := other1; path := Some key |} |})
     = Return (path_resolve [resolve_root config;
                             output_path (plugin_output plugin_options);
                             match group_name g with
                             | Some name => name {| ctx_group := Some key |}
                             | None => template_string (segment_after_first_slash key)
                             end;
                             baseName1])
     ∧ resolvePath config plugin_options baseName2 pathMode
         (Some {| options_group := Some {| tag := other2; path := Some key |} |})
       = Return (path_resolve [resolve_root config;
                               output_path (plugin_output plugin_options);
                               match group_name g with
                               | Some name => name {| ctx_group := Some key |}
                               | None => template_string (segment_after_first_slash key)
                               end;
                               baseName2])).
Proof.
  intros Hgroup Hmode Hkey.
  assert (Hdirectory : forall options baseName,
            group_key g options = Some key ->
            resolvePath config plugin_options baseName pathMode options
            = Return (path_resolve [resolve_root config;
                                    output_path (plugin_output plugin_options);
                                    group_directory g key; baseName])).
  { intros options baseName Hcarries. unfold resolvePath.
    rewrite Hmode, Hgroup, (has_group_key_true g options key), Hcarries by done.
    by rewrite groupName_group_directory. }
  split; intros Htype.
  - rewrite !Hdirectory by (unfold group_key; by rewrite Htype).
    unfold group_directory. by rewrite Htype.
  - rewrite !Hdirectory by (unfold group_key; by rewrite Htype).
    unfold group_directory. by rewrite Htype.
Qed.

End resolvePath_properties.

(** * Further properties of [sort], [parse] and [resolvePath] *)

(** ** What [parse] reads *)

Section parse_reads.
Context `{Kubb} `{Runtime}.

Lemma parse_fuel_reads (n : nat) (tree tree' : SchemaTree) (options options' : ParserOptions) :
  current tree = current tree' -> siblings tree = siblings tree' ->
  same_parser_options options options' ->
  parse_fuel n tree options = parse_fuel n tree' options'.
Proof.
  revert tree tree'. induction n as [|n IH]; [done|].
  intros [p c nm sibs] [p' c' nm' sibs'] Hc Hs (Hmapper & Hcoerce & Hwrap & Hraw & Hversion).
  cbn [current siblings] in Hc, Hs. subst c' sibs'.
  assert (Hsame : same_parser_options options options') by done.
  cbn [parse_fuel current parent name siblings].
  destruct (negb (zodKeywordMapper.has_handler (keyword c))); [done|].
  destruct c; rewrite ?Hcoerce, ?Hversion; try reflexivity.
  - (* KObject *)
    apply bind_completion_ext.
    + apply mapM_completion_ext. intros [pname schemas] _.
      rewrite Hmapper. destruct (truthy_string _); [done|].
      apply bind_completion_ext.
      * apply mapM_completion_ext. intros x _. by apply IH.
      * intros outs. unfold print_property. by rewrite Hwrap, Hraw, Hversion.
    + intros props. apply bind_completion_ext; [|done].
      destruct additionalProperties as [|a rest]; [done|].
      apply bind_completion_ext; [|done].
      apply mapM_completion_ext. intros x _. by apply IH.
  - (* KArray *)
    apply bind_completion_ext; [|done]. apply mapM_completion_ext. intros x _. by apply IH.
  - (* KTuple *)
    apply bind_completion_ext; [|done]. apply mapM_completion_ext. intros x _. by apply IH.
  - (* KEnum *)
    destruct asConst; [|done]. destruct items as [|item [|item' rest]]; [done| |].
    + by apply IH.
    + apply bind_completion_ext; [|done]. apply mapM_completion_ext. intros x _. by apply IH.
  - (* KAnd *)
    apply bind_completion_ext; [|done]. apply mapM_completion_ext. intros x _. by apply IH.
  - (* KUnion *)
    destruct args as [|a [|b rest]]; [done| |].
    + by apply IH.
    + apply bind_completion_ext; [|done]. apply mapM_completion_ext. intros x _. by apply IH.
Qed.

End parse_reads.

(** ** More on [orderBy] and [sort] *)

Section orderBy_more.
Context {A : Type} (key : A -> Z).

Lemma orderBy_insert_head (x : A) (sorted : list A) :
  Forall (key_le key x) sorted -> orderBy_insert key x sorted = x :: sorted.
Proof.
  destruct 1 as [|y rest Hxy _]; [done|].
  cbn [orderBy_insert]. unfold key_le in Hxy.
  by destruct (Z.leb_spec (key x) (key y)); [|lia].
Qed.

(** A sorted list is left as it is. *)
Lemma orderBy_sorted_id (items : list A) :
  StronglySorted (key_le key) items -> orderBy key items = items.
Proof.
  induction 1 as [|x rest Hrest IH Hx]; [done|].
  cbn [orderBy foldr]. fold (orderBy key rest). rewrite IH.
  by apply orderBy_insert_head.
Qed.

(** Filtering before or after the sort gives the same list. *)
Lemma orderBy_insert_filter (keep : A -> bool) (x : A) (sorted : list A) :
  StronglySorted (key_le key) sorted ->
  List.filter keep (orderBy_insert key x sorted)
  = if keep x then orderBy_insert key x (List.filter keep sorted)
    else List.filter keep sorted.
Proof.
  induction 1 as [|y rest Hrest IH Hy]; [cbn; by destruct (keep x)|].
  cbn [orderBy_insert]. destruct (Z.leb_spec (key x) (key y)) as [Hle|Hgt].
  - cbn [List.filter]. destruct (keep x) eqn:Hkx; [|done].
    symmetry. apply orderBy_insert_head.
    assert (Hall : Forall (key_le key x) (y :: rest)).
    { constructor; [done|]. eapply Forall_impl; [exact Hy|].
      unfold key_le. intros; lia. }
    rewrite Forall_forall in Hall. apply Forall_forall. intros z Hz.
    apply Hall. change (z ∈ List.filter keep (y :: rest)) in Hz.
    rewrite list_elem_of_In, filter_In, <- list_elem_of_In in Hz. by destruct Hz.
  - cbn [List.filter]. rewrite IH. destruct (keep y) eqn:Hky, (keep x) eqn:Hkx; try done.
    cbn [orderBy_insert]. by destruct (Z.leb_spec (key x) (key y)); [lia|].
Qed.

Lemma orderBy_filter (keep : A -> bool) (items : list A) :
  List.filter keep (orderBy key items) = orderBy key (List.filter keep items).
Proof.
  induction items as [|x rest IH]; [done|].
  cbn [orderBy foldr]. fold (orderBy key rest).
  rewrite orderBy_insert_filter by apply orderBy_sorted.
  cbn [List.filter]. destruct (keep x); [|done].
  cbn [orderBy foldr]. fold (orderBy key (List.filter keep rest)). by rewrite IH.
Qed.

Lemma fmap_inj_on_NoDup {B : Type} (f : A -> B) (items : list A) (x y : A) :
  NoDup (f <$> items) -> x ∈ items -> y ∈ items -> f x = f y -> x = y.
Proof.
  induction items as [|z rest IH]; intros Hnodup Hx Hy Hf.
  { by apply elem_of_nil in Hx. }
  rewrite fmap_cons in Hnodup. apply NoDup_cons in Hnodup as [Hz Hrest].
  apply elem_of_cons in Hx as [->|Hx], Hy as [->|Hy]; [done| | |by apply IH].
  - destruct Hz. rewrite Hf. by apply list_elem_of_fmap_2.
  - destruct Hz. rewrite <- Hf. by apply list_elem_of_fmap_2.
Qed.

(** With pairwise distinct keys the result does not depend on the order of
    the input. *)
Lemma orderBy_Permutation_NoDup (items items' : list A) :
  items ≡ₚ items' -> NoDup (key <$> items) -> orderBy key items = orderBy key items'.
Proof.
  intros Hperm Hnodup.
  apply (StronglySorted_unique_strong (key_le key)).
  - intros x1 x2 Hx1 Hx2 H12 H21. unfold key_le in *.
    rewrite orderBy_Permutation in Hx1, Hx2. rewrite <- Hperm in Hx2.
    apply (fmap_inj_on_NoDup key items); [done..|lia].
  - apply orderBy_sorted.
  - apply orderBy_sorted.
  - by rewrite !orderBy_Permutation.
Qed.

End orderBy_more.

(** X1.  [sort] is idempotent: a list of siblings that is already in the
    canonical order is returned as it is. *)
Theorem sort_idempotent (items : list Schema) :
  sort (Some (sort (Some items))) = sort (Some items).
Proof. cbn [sort]. apply orderBy_sorted_id, orderBy_sorted. Qed.

(** X2.  [sort] is stable: the nodes with a given place in [order] (the nodes of
    one keyword, or all the nodes whose keyword is not in [order]) come out
    in the order of the input. *)
Theorem sort_stable (position : Z) (items : list Schema) :
  List.filter (fun schema => sort_key schema =? position) (sort (Some items))
  = List.filter (fun schema => sort_key schema =? position) items.
Proof. apply orderBy_stable. Qed.

(** X3.  Nodes can be dropped before or after [sort]. *)
Theorem sort_filter (keep : Schema -> bool) (items : list Schema) :
  List.filter keep (sort (Some items)) = sort (Some (List.filter keep items)).
Proof. apply orderBy_filter. Qed.

(** X4.  When no two siblings have the same place in [order], the result of
    [sort] is the same for every order of the input. *)
Theorem sort_Permutation_NoDup (items items' : list Schema) :
  items ≡ₚ items' -> NoDup (sort_key <$> items) ->
  sort (Some items) = sort (Some items').
Proof. apply orderBy_Permutation_NoDup. Qed.

Lemma sort_Permutation_NoDup_witness :
  sort (Some [Bare "nullable"; KMin (Num "1"); Bare "string"])
  = sort (Some [Bare "string"; Bare "nullable"; KMin (Num "1")]).
Proof.
  apply (sort_Permutation_NoDup [Bare "nullable"; KMin (Num "1"); Bare "string"]
           [Bare "string"; Bare "nullable"; KMin (Num "1")]).
  - apply (Permutation_cons_app [Bare "string"] [KMin (Num "1")]).
    apply (Permutation_cons_app [Bare "string"] []). reflexivity.
  - cbn. repeat constructor; rewrite ?elem_of_cons, elem_of_nil; intros Hin;
      repeat destruct Hin as [Hin|Hin]; done.
Defined.

(** ** More on [parse] *)

Section parse_more.
Context `{Kubb} `{Runtime}.

(** X5.  [parse] never reads [parent] and [name]: they are only handed down. *)
Theorem parse_ignores_parent_name (p p' : option Schema) (nm nm' : option string)
    (schema : Schema) (sibs : list Schema) (options : ParserOptions) :
  parse {| parent := p; current := schema; name := nm; siblings := sibs |} options
  = parse {| parent := p'; current := schema; name := nm'; siblings := sibs |} options.
Proof. unfold parse. by apply parse_fuel_reads. Qed.

(** X6.  Of its options [parse] reads [mapper], [wrapOutput], [rawSchema] and
    [version], and [coercion] only through [shouldCoerce]: options that agree
    on these print the same. *)
Theorem parse_reads_options (tree : SchemaTree) (options options' : ParserOptions) :
  same_parser_options options options' ->
  parse tree options = parse tree options'.
Proof. intros Hsame. unfold parse. by apply parse_fuel_reads. Qed.

Lemma mapM_completion_returns {A B} (f : A -> completion B) (items : list A) :
  (forall x, x ∈ items -> exists y, f x = Return y) ->
  exists ys, mapM f items = Return ys.
Proof.
  induction items as [|x rest IH]; intros Hall; [by exists []|].
  destruct (Hall x) as [y Hy]; [left|].
  destruct IH as [ys Hys]; [intros z Hz; apply Hall; by right|].
  exists (y :: ys). cbn [mapM]. by rewrite Hy, Hys.
Qed.

Lemma has_args_elem_of (schema : Schema) (items : list Schema) :
  forallb has_args items = true -> schema ∈ items -> has_args schema = true.
Proof. rewrite forallb_forall, list_elem_of_In. auto. Qed.

Lemma has_args_Bare (k : string) :
  has_args (Bare k) = true ->
  String.eqb k "array" = false ∧ String.eqb k "enum" = false
  ∧ String.eqb k "tuple" = false ∧ String.eqb k "const" = false
  ∧ String.eqb k "datetime" = false ∧ String.eqb k "date" = false
  ∧ String.eqb k "time" = false.
Proof.
  cbn [has_args]. intros [Hk%negb_true_iff _]%andb_true_iff.
  cbn [reads_args includes existsb] in Hk.
  repeat (apply orb_false_iff in Hk as [? Hk]). by repeat split.
Qed.

Lemma parse_fuel_returns (n : nat) (tree : SchemaTree) (options : ParserOptions) :
  (height (current tree) <= n)%nat -> has_args (current tree) = true ->
  exists output, parse_fuel n tree options = Return output.
Proof.
  revert tree. induction n as [|n IH]; intros [p c nm sibs] Hn Hargs; cbn [current] in *.
  { pose proof (height_pos c). lia. }
  cbn [parse_fuel current parent name siblings].
  destruct (negb (zodKeywordMapper.has_handler (keyword c))); [by eexists|].
  destruct c; cbn [height] in Hn;
    try (cbn [has_args] in Hargs); try (repeat case_match; by eexists).
  - (* Bare *)
    apply has_args_Bare in Hargs as (-> & -> & -> & -> & -> & -> & ->).
    cbn [sort List.filter mapM mbind completion_bind mret completion_ret].
    repeat case_match; by eexists.
  - (* KObject *)
    apply andb_true_iff in Hargs as [Hprops Hadd].
    rewrite forallb_forall in Hprops.
    match goal with
    | |- context [mapM ?f properties] =>
        destruct (mapM_completion_returns f properties) as [props ->]
    end.
    { intros [pname schemas] Hprop. destruct (truthy_string _); [by eexists|].
      match goal with
      | |- context [mapM ?f (sort (Some schemas))] =>
          destruct (mapM_completion_returns f (sort (Some schemas))) as [outs ->]
      end; [|by eexists].
      intros x Hx. apply IH; cbn [current].
      - pose proof (height_property _ _ _ _ Hprop Hx). lia.
      - apply (has_args_elem_of x schemas); [|by apply elem_of_sort].
        apply (Hprops (pname, schemas)). by apply list_elem_of_In. }
    cbn [mbind completion_bind].
    destruct additionalProperties as [|a rest]; [by eexists|].
    match goal with
    | |- context [mapM ?f (a :: rest)] =>
        destruct (mapM_completion_returns f (a :: rest)) as [outs ->]
    end; [|by eexists].
    intros x Hx. apply IH; cbn [current].
    + apply height_elem_of in Hx. lia.
    + by apply (has_args_elem_of x (a :: rest)).
  - (* KArray *)
    match goal with
    | |- context [mapM ?f ?l] => destruct (mapM_completion_returns f l) as [outs ->]
    end; [|by eexists].
    intros x Hx. apply IH; cbn [current].
    + apply height_elem_of_sort in Hx. lia.
    + apply (has_args_elem_of x items); [done|by apply elem_of_sort].
  - (* KTuple *)
    match goal with
    | |- context [mapM ?f ?l] => destruct (mapM_completion_returns f l) as [outs ->]
    end; [|by eexists].
    intros x Hx. apply IH; cbn [current].
    + apply height_elem_of in Hx. lia.
    + by apply (has_args_elem_of x items).
  - (* KEnum *)
    destruct asConst; [|by eexists].
    destruct items as [|item [|item' rest]]; [by eexists| |].
    + apply IH; cbn; [lia|done].
    + match goal with
      | |- context [mapM ?f ?l] => destruct (mapM_completion_returns f l) as [outs ->]
      end; [|by eexists].
      intros x Hx. apply list_elem_of_fmap in Hx as (arg & -> & _).
      apply IH; cbn; [lia|done].
  - (* KAnd *)
    match goal with
    | |- context [mapM ?f ?l] => destruct (mapM_completion_returns f l) as [outs ->]
    end; [|by eexists].
    intros x Hx. apply IH; cbn [current].
    + apply height_elem_of_filter_sort in Hx. lia.
    + apply (has_args_elem_of x args); [done|].
      rewrite list_elem_of_In, filter_In, <- list_elem_of_In in Hx.
      destruct Hx as [Hx _]. by apply elem_of_sort.
  - (* KUnion *)
    destruct args as [|a [|b rest]]; [by eexists| |].
    + apply IH; cbn [current]; cbn in Hn, Hargs; [lia|].
      by apply andb_true_iff in Hargs as [? _].
    + match goal with
      | |- context [mapM ?f ?l] => destruct (mapM_completion_returns f l) as [outs ->]
      end; [|by eexists].
      intros x Hx. apply IH; cbn [current].
      * apply height_elem_of_sort in Hx. lia.
      * apply (has_args_elem_of x (a :: b :: rest)); [done|by apply elem_of_sort].
Qed.

(** X7.  [parse] throws only on a node without [args] whose keyword makes
    it read a field of [args], or whose keyword is the name of a member that
    the mapper inherits from [Object.prototype]: on a tree without such a
    node it returns, a string or [undefined]. *)
Theorem parse_returns (tree : SchemaTree) (options : ParserOptions) :
  has_args (current tree) = true ->
  exists output, parse tree options = Return output.
Proof. intros Hargs. by apply parse_fuel_returns. Qed.

End parse_more.

Section parse_compose.
Context `{Kubb} `{Runtime}.

Lemma object_nonempty (value : option string) (strict : option bool) (v : Version) :
  nonempty (zodKeywordMapper.object value strict v) = true.
Proof. unfold zodKeywordMapper.object. by destruct v, (truthy_boolean strict). Qed.

(** X8.  A property with an entry in [options.mapper] is printed as that entry:
    its schemas are not parsed, so they neither show in the output nor make
    [parse] throw.  Here for an object all of whose properties have an
    entry and that has no additional properties. *)
Theorem parse_object_mapped (p : option Schema) (nm : option string) (sibs : list Schema)
    (properties : list (string * list Schema)) (strict : option bool)
    (options : ParserOptions) (custom : gmap string string) :
  mapper options = Some custom ->
  (forall pname schemas, (pname, schemas) ∈ properties ->
     truthy_string (custom !! or_string (find_name_args schemas) pname) = true) ->
  parse {| parent := p; current := KObject properties [] strict; name := nm;
           siblings := sibs |} options
  = Return (Some (zodKeywordMapper.object
      (Some (join ("," +:+ LF)
        ((fun property : string * list Schema =>
            DQ +:+ property.1 +:+ DQ +:+ ": "
            +:+ template_string (custom !! or_string (find_name_args property.2) property.1))
         <$> properties)))
      strict (version options))).
Proof.
  intros Hmapper Hcustom. unfold parse. cbn [current height].
  cbn [parse_fuel current parent name siblings].
  change (zodKeywordMapper.has_handler (keyword (KObject properties [] strict))) with true.
  cbn [negb]. rewrite Hmapper. cbn [mbind option_bind].
  erewrite mapM_completion_ext.
  - rewrite mapM_completion_Return. cbn [mbind completion_bind].
    cbn [truthy_string filter_Boolean omap list_omap]. rewrite object_nonempty.
    unfold join at 1. cbn [String.concat]. reflexivity.
  - intros [pname schemas] Hprop. cbn beta iota.
    by rewrite (Hcustom pname schemas Hprop).
Qed.

(** X9.  The order in which a union lists its members does not show in the
    output when no two members have the same place in [order]. *)
Theorem parse_union_Permutation (p : option Schema) (nm : option string)
    (sibs : list Schema) (args args' : list Schema) (options : ParserOptions) :
  args ≡ₚ args' -> NoDup (sort_key <$> args) ->
  parse {| parent := p; current := KUnion args; name := nm; siblings := sibs |} options
  = parse {| parent := p; current := KUnion args'; name := nm; siblings := sibs |} options.
Proof.
  intros Hperm Hnodup. unfold parse. cbn [current height].
  assert (Hheight : max_list (height <$> args') = max_list (height <$> args))
    by by rewrite Hperm.
  rewrite Hheight. generalize (max_list (height <$> args)) as n. intros n.
  cbn [parse_fuel current parent name siblings].
  change (zodKeywordMapper.has_handler (keyword (KUnion args))) with true.
  change (zodKeywordMapper.has_handler (keyword (KUnion args'))) with true.
  cbn [negb]. pose proof (Permutation_length Hperm) as Hlength.
  pose proof (orderBy_Permutation_NoDup sort_key args args' Hperm Hnodup) as Hsort.
  change (sort (Some args) = sort (Some args')) in Hsort.
  destruct args as [|a [|b rest]].
  - apply Permutation_nil_l in Hperm. by subst.
  - apply Permutation_singleton_l in Hperm. by subst.
  - destruct args' as [|a' [|b' rest']]; [done..|].
    rewrite <- Hsort. apply bind_completion_ext; [|done].
    apply mapM_completion_ext. intros x _. by apply parse_fuel_reads.
Qed.

Lemma and_members_filter (args : list Schema) :
  and_members
    (List.filter (fun schema => negb (includes ["optional"; "describe"] (keyword schema))) args)
  = and_members args.
Proof.
  unfold and_members, sort. rewrite !orderBy_filter.
  set (keep := fun schema => negb (includes ["optional"; "describe"] (keyword schema))).
  assert (Hidem : List.filter keep (List.filter keep args) = List.filter keep args).
  { induction args as [|x rest IH]; [done|].
    cbn [List.filter]. destruct (keep x) eqn:Hkeep; [|done].
    cbn [List.filter]. by rewrite Hkeep, IH. }
  by rewrite Hidem.
Qed.

(** X10.  The [optional] and [describe] members of an intersection are never
    printed: leaving them out of the arguments does not change the output. *)
Theorem parse_and_without_optional_describe (p : option Schema) (nm : option string)
    (sibs : list Schema) (args : list Schema) (options : ParserOptions) :
  parse {| parent := p; current := KAnd args; name := nm; siblings := sibs |} options
  = parse {| parent := p;
             current := KAnd (List.filter (fun schema =>
               negb (includes ["optional"; "describe"] (keyword schema))) args);
             name := nm; siblings := sibs |} options.
Proof.
  rewrite !parse_and, and_members_filter.
  apply bind_completion_ext; [|done].
  apply mapM_completion_ext. intros x _. unfold parse. by apply parse_fuel_reads.
Qed.

End parse_compose.

(** ** More on [resolvePath] *)

Lemma before_first_app (sep : ascii) (segment rest : string) :
  after_first sep segment = None ->
  before_first sep (segment +:+ String sep rest) = segment.
Proof.
  induction segment as [|c segment IH]; intros Hnone.
  - change (EmptyString +:+ String sep rest) with (String sep rest).
    cbn [before_first]. by rewrite Ascii.eqb_refl.
  - cbn [after_first] in Hnone.
    change (String c segment +:+ String sep rest) with (String c (segment +:+ String sep rest)).
    cbn [before_first]. destruct (Ascii.eqb c sep); [done|]. by rewrite IH.
Qed.

Lemma before_first_None (sep : ascii) (segment : string) :
  after_first sep segment = None -> before_first sep segment = segment.
Proof.
  induction segment as [|c segment IH]; intros Hnone; [done|].
  cbn [after_first before_first] in *. destruct (Ascii.eqb c sep); [done|]. by rewrite IH.
Qed.

Section resolvePath_more.
Context `{Kubb} `{Runtime}.

(** X12.  Without a [group] option, or with options that carry neither a path
    nor a tag, a file goes straight under the output path of the plugin,
    whatever else the options of the call hold. *)
Theorem resolvePath_without_group (config : Config) (plugin_options : Options)
    (baseName : string) (pathMode : option Mode) (options : option ResolvePathOptions) :
  resolve_mode config plugin_options pathMode = mode_split ->
  group plugin_options = None ∨ has_group_key options = false ->
  resolvePath config plugin_options baseName pathMode options
  = Return (path_resolve [resolve_root config; output_path (plugin_output plugin_options);
                          baseName]).
Proof.
  intros Hmode Hflat. unfold resolvePath. rewrite Hmode.
  destruct (group plugin_options) as [g|]; [|done].
  destruct Hflat as [Hnone|Hkey]; [done|]. by rewrite Hkey.
Qed.

(** X13.  [resolvePath] throws in one case only: the mode is not [single], the
    plugin groups by path with the default name of the group, and the
    options of the call carry a tag and no path. *)
Theorem resolvePath_Throw (config : Config) (plugin_options : Options)
    (baseName : string) (pathMode : option Mode) (options : option ResolvePathOptions) :
  resolvePath config plugin_options baseName pathMode options = Throw
  <-> resolve_mode config plugin_options pathMode = mode_split
      ∧ exists g, group plugin_options = Some g
                  ∧ group_type g = group_path ∧ group_name g = None
                  ∧ truthy_string ((options ≫= options_group) ≫= tag) = true
                  ∧ (options ≫= options_group) ≫= path = None.
Proof.
  unfold resolvePath. split.
  - destruct (resolve_mode config plugin_options pathMode); [done|].
    destruct (group plugin_options) as [g|]; [|done].
    destruct (has_group_key options) eqn:Hhas; [|done].
    unfold groupName, default_groupName, group_key. cbn [ctx_group].
    destruct (group_name g) as [f|] eqn:Hname; [done|].
    destruct (group_type g) eqn:Htype; [done| |done].
    unfold has_group_key in Hhas.
    destruct ((options ≫= options_group) ≫= path) as [key|]; [done|].
    intros _. split; [done|]. by exists g.
  - intros (-> & g & -> & Htype & Hname & Htag & Hpath).
    unfold has_group_key, groupName, default_groupName, group_key.
    by rewrite Hname, Htype, Hpath, Htag.
Qed.

(** X14.  The default directory of a group by path is the first segment of the
    path: [/pets/{id}] and [/pets] go to [pets].  A path without ['/'] goes
    to the directory [undefined]. *)
Theorem groupName_first_segment (g : Group) (segment rest : string) :
  group_type g = group_path -> group_name g = None ->
  after_first "/" segment = None ->
  groupName g {| ctx_group := Some ("/" +:+ segment +:+ "/" +:+ rest) |} = Return segment
  ∧ groupName g {| ctx_group := Some ("/" +:+ segment) |} = Return segment
  ∧ groupName g {| ctx_group := Some segment |} = Return "undefined".
Proof.
  intros Htype Hname Hsegment. unfold groupName, default_groupName.
  rewrite Hname, Htype. cbn [ctx_group]. rewrite !split_second.
  unfold segment_after_first_slash.
  change ("/" +:+ segment +:+ "/" +:+ rest) with (String "/" (segment +:+ String "/" rest)).
  change ("/" +:+ segment) with (String "/" segment).
  cbn [after_first]. rewrite Ascii.eqb_refl, Hsegment.
  cbn [fmap option_fmap option_map template_string from_option id].
  by rewrite before_first_app, before_first_None.
Qed.

End resolvePath_more.

(** ** What [filter(Boolean)] can drop *)

Lemma nonempty_app (a b : string) : nonempty a = true -> nonempty (a +:+ b) = true.
Proof. by destruct a. Qed.

Lemma has_handler_elem_of (k : string) :
  zodKeywordMapper.has_handler k = true -> k ∈ zodKeywordMapper.handlers.
Proof.
  unfold zodKeywordMapper.has_handler, includes. rewrite existsb_exists.
  intros (s & Hin & ->%String.eqb_eq). by apply list_elem_of_In.
Qed.

Section parse_dropped.
Context `{Kubb} `{Runtime}.

Lemma join_filter_Boolean_nonempty (first : string) (others : list (option string)) :
  nonempty first = true ->
  nonempty (join EmptyString (filter_Boolean (Some first :: others))) = true.
Proof.
  intros Hfirst. unfold filter_Boolean. cbn [omap list_omap]. rewrite Hfirst.
  rewrite join_empty_cons. by apply nonempty_app.
Qed.

Local Ltac leaf_dropped Hparse Hfalsy :=
  exfalso; vm_compute in Hparse; repeat case_match; simplify_eq;
  by vm_compute in Hfalsy.

(** X11.  The callers of [parse] drop an output that is [undefined] or empty.
    That happens only to a node whose keyword has no handler and to the
    nodes of five keywords: the node of every other keyword, when [parse]
    returns, shows in the output. *)
Theorem parse_dropped_keywords (tree : SchemaTree) (options : ParserOptions)
    (output : option string) :
  parse tree options = Return output -> truthy_string output = false ->
  zodKeywordMapper.has_handler (keyword (current tree)) = false
  ∨ keyword (current tree) ∈ ["ref"; "catchall"; "optional"; "union"; "and"].
Proof.
  destruct tree as [p c nm sibs]. cbn [current]. intros Hparse Hfalsy.
  destruct (zodKeywordMapper.has_handler (keyword c)) eqn:Hhandler; [right|by left].
  destruct c; try (rewrite !elem_of_cons; by auto 10); unfold parse in Hparse;
    cbn [current height] in Hparse.
  - (* Bare *)
    apply has_handler_elem_of in Hhandler. cbn [keyword] in *.
    unfold zodKeywordMapper.handlers in Hhandler.
    repeat (apply elem_of_cons in Hhandler as [->|Hhandler];
            [ first [ by (rewrite !elem_of_cons; auto 10)
                    | leaf_dropped Hparse Hfalsy ] |]).
    by apply elem_of_nil in Hhandler.
  - (* KObject *)
    exfalso. cbn [parse_fuel current parent name siblings] in Hparse.
    rewrite Hhandler in Hparse. cbn [negb] in Hparse.
    match type of Hparse with
    | context [mapM ?f properties] => destruct (mapM f properties) as [|props]; [done|]
    end.
    cbn [mbind completion_bind] in Hparse.
    match type of Hparse with
    | context [mbind _ ?c] => destruct c as [|additional]; [done|]
    end.
    cbn [mbind completion_bind] in Hparse.
    match type of Hparse with
    | Return ?o = _ => assert (Hout : output = o) by congruence
    end.
    subst output. unfold truthy_string in Hfalsy.
    by rewrite join_filter_Boolean_nonempty in Hfalsy by apply object_nonempty.
  - (* KArray *)
    exfalso. cbn [parse_fuel current parent name siblings] in Hparse.
    rewrite Hhandler in Hparse. cbn [negb] in Hparse.
    match type of Hparse with
    | context [mapM ?f ?l] => destruct (mapM f l) as [|outs]; [done|]
    end.
    cbn [mbind completion_bind] in Hparse.
    match type of Hparse with
    | Return ?o = _ => assert (Hout : output = o) by congruence
    end.
    subst output. unfold truthy_string, zodKeywordMapper.array in Hfalsy.
    by rewrite join_filter_Boolean_nonempty in Hfalsy.
  - (* KTuple *)
    exfalso. cbn [parse_fuel current parent name siblings] in Hparse.
    rewrite Hhandler in Hparse. cbn [negb] in Hparse.
    match type of Hparse with
    | context [mapM ?f ?l] => destruct (mapM f l) as [|outs]; [done|]
    end.
    cbn [mbind completion_bind] in Hparse.
    match type of Hparse with
    | Return ?o = _ => assert (Hout : output = o) by congruence
    end.
    by subst output.
  - (* KEnum *)
    exfalso. remember 1%nat as fuel eqn:Hfuel.
    cbn [parse_fuel current parent name siblings] in Hparse.
    rewrite Hhandler in Hparse. cbn [negb] in Hparse.
    destruct asConst.
    + destruct items as [|item [|item' rest]]; subst fuel.
      * leaf_dropped Hparse Hfalsy.
      * leaf_dropped Hparse Hfalsy.
      * rewrite mapM_parse_const in Hparse. cbn [mbind completion_bind] in Hparse.
        match type of Hparse with
        | Return ?o = _ => assert (Hout : output = o) by congruence
        end.
        by subst output.
    + match type of Hparse with
      | Return ?o = _ => assert (Hout : output = o) by congruence
      end.
      by subst output.
  - (* KConst *) leaf_dropped Hparse Hfalsy.
  - (* KMatches *) leaf_dropped Hparse Hfalsy.
  - (* KDefault *) leaf_dropped Hparse Hfalsy.
  - (* KDescribe *) leaf_dropped Hparse Hfalsy.
  - (* KMin *) leaf_dropped Hparse Hfalsy.
  - (* KMax *) leaf_dropped Hparse Hfalsy.
  - (* KDatetime *) leaf_dropped Hparse Hfalsy.
  - (* KDate *) leaf_dropped Hparse Hfalsy.
  - (* KTime *) leaf_dropped Hparse Hfalsy.
Qed.

End parse_dropped.

(** * The theorems at concrete inputs *)

Import Sample.

(** The siblings of a property, out of order, come out in the canonical
    order; [integer] is not in [order] and stays in front. *)
Example sort_id_property :
  sort (Some [Bare "optional"; KMin (Num "1"); KDescribe "id"; Bare "integer"])
  = [Bare "integer"; KMin (Num "1"); KDescribe "id"; Bare "optional"].
Proof. reflexivity. Qed.

(** [Pet = { id: integer, name: string, tag?: string }], for version 3. *)
Example parse_pet :
  parse (tree (KObject [ ("id", [Bare "integer"]);
                         ("name", [Bare "string"]);
                         ("tag", [Bare "optional"; Bare "string"]) ] [] None) [])
    (options v3)
  = Return (Some ("z.object({" +:+ LF +:+ "    "
                  +:+ DQ +:+ "id" +:+ DQ +:+ ": z.number().int()," +:+ LF
                  +:+ DQ +:+ "name" +:+ DQ +:+ ": z.string()," +:+ LF
                  +:+ DQ +:+ "tag" +:+ DQ +:+ ": z.string().optional()" +:+ LF
                  +:+ "    })")).
Proof. reflexivity. Qed.

(** A union sorts its members and drops those that print nothing. *)
Example parse_union_members :
  parse (tree (KUnion [Bare "string"; Bare "deprecated"; pet_ref]) []) (options v4)
  = Return (Some "z.union([Pet, z.string()])").
Proof. reflexivity. Qed.

(** An [array] node without [args] makes [parse] read [items] of
    [undefined]. *)
Example parse_array_without_args :
  parse (tree (KUnion [Bare "string"; Bare "array"]) []) (options v3) = Throw.
Proof. reflexivity. Qed.

(** A group by tag, and a group by path whose options carry no path. *)
Example resolvePath_by_tag :
  resolvePath app {| output := None;
                     group := Some {| group_type := group_tag; group_name := None |} |}
    "getPet.ts" None pets
  = Return "/app/src/gen/services/PetService/getPet.ts".
Proof. reflexivity. Qed.

Example resolvePath_by_path_without_path :
  resolvePath app by_path "getPet.ts" None
    (Some {| options_group := Some {| tag := Some "pet"; path := None |} |})
  = Throw.
Proof. reflexivity. Qed.

(** An enum node with [asConst] and no member is neither of the two
    [asConst] cases that C6 names, and it does not print the enum
    expression: it prints an empty union. *)
Lemma parse_enum_asConst_no_member :
  parse (tree (KEnum true []) []) (options v3) = Return (Some "z.union([])")
  ∧ parse (tree (KEnum true []) []) (options v3)
    ≠ Return (Some (zodKeywordMapper.enum
                      ((fun item => stringify (const_value item)) <$> []))).
Proof. split; [reflexivity|discriminate]. Qed.

Lemma parse_enum_witness :
  parse (tree (KEnum true [pet_a]) []) (options v3)
  = Return (Some ("z.literal(" +:+ DQ +:+ "a" +:+ DQ +:+ ")"))
  ∧ parse (tree (KEnum true [pet_a; pet_b]) []) (options v3)
    = Return (Some ("z.union([" +:+ join ", " (parse_const <$> [pet_a; pet_b]) +:+ "])"))
  ∧ parse (tree (KEnum false [pet_a; pet_b]) []) (options v3)
    = Return (Some ("z.enum([" +:+ join ", "
                      ((fun item => stringify (const_value item)) <$> [pet_a; pet_b])
                    +:+ "])")).
Proof.
  split; [|split].
  - exact (proj2 (proj1 (parse_enum None None [] true [pet_a] (options v3))
                    pet_a eq_refl eq_refl)).
  - apply (proj1 (proj2 (parse_enum None None [] true [pet_a; pet_b] (options v3)))).
    + reflexivity.
    + cbn. lia.
  - apply (proj2 (proj2 (parse_enum None None [] false [pet_a; pet_b] (options v3)))).
    reflexivity.
Defined.

Lemma resolvePath_single_witness :
  resolve_mode app by_path (Some mode_single) = mode_single
  ∧ resolvePath app by_path "getPet.ts" (Some mode_single) pets
    = Return "/app/src/gen/services".
Proof.
  split; [reflexivity|].
  exact (resolvePath_single app by_path (Some mode_single) eq_refl "getPet.ts" pets).
Defined.

Lemma resolvePath_group_directory_witness :
  (resolvePath app
     {| output := None; group := Some {| group_type := group_tag; group_name := None |} |}
     "getPet.ts" None
     (Some {| options_group := Some {| tag := Some "pet"; path := Some "/pets/{id}" |} |})
   = Return "/app/src/gen/services/PetService/getPet.ts"
   ∧ resolvePath app
       {| output := None; group := Some {| group_type := group_tag; group_name := None |} |}
       "findByStatus.ts" None
       (Some {| options_group := Some {| tag := Some "pet";
                                         path := Some "/store/findByStatus" |} |})
     = Return "/app/src/gen/services/PetService/findByStatus.ts")
  ∧ (resolvePath app by_path "getPet.ts" None
       (Some {| options_group := Some {| tag := Some "pet"; path := Some "/pets/{id}" |} |})
     = Return "/app/src/gen/services/pets/getPet.ts"
     ∧ resolvePath app by_path "addPet.ts" None
         (Some {| options_group := Some {| tag := None; path := Some "/pets/{id}" |} |})
       = Return "/app/src/gen/services/pets/addPet.ts").
Proof.
  split.
  - refine (proj1 (resolvePath_group_directory app
              {| output := None;
                 group := Some {| group_type := group_tag; group_name := None |} |}
              {| group_type := group_tag; group_name := None |} None "pet"
              "getPet.ts" "findByStatus.ts" (Some "/pets/{id}") (Some "/store/findByStatus")
              eq_refl eq_refl _) eq_refl).
    discriminate.
  - refine (proj2 (resolvePath_group_directory app by_path
              {| group_type := group_path; group_name := None |} None "/pets/{id}"
              "getPet.ts" "addPet.ts" (Some "pet") None
              eq_refl eq_refl _) eq_refl).
    discriminate.
Defined.

Lemma parse_and_chain_witness :
  parse (tree (KAnd [Bare "string"; Bare "optional"; pet_ref]) []) (options v3)
  = Return (Some ("z.lazy(() => Pet)" +:+ and_chain ["z.string()"])).
Proof.
  refine (proj2 (parse_and_chain None None [] [Bare "string"; Bare "optional"; pet_ref]
                   (options v3) [Some "z.lazy(() => Pet)"; Some "z.string()"] eq_refl)
            "z.lazy(() => Pet)" "z.string()" [] eq_refl).
Defined.

Lemma parse_unmapped_keyword_witness :
  parse (tree (Bare "readOnly") []) (options v3) = Return None
  ∧ parse (tree (Bare "x-internal") []) (options v3) = Return None.
Proof.
  split.
  - apply parse_unmapped_keyword. right. cbn. repeat constructor.
  - apply parse_unmapped_keyword. left. reflexivity.
Defined.

Lemma parse_ref_by_name_witness :
  parse (tree pet_ref []) (options v3) = Return (Some "z.lazy(() => Pet)")
  ∧ parse (tree pet_ref []) (options v4) = Return (Some "Pet").
Proof.
  split.
  - refine (proj1 (parse_ref_by_name None None [] "Pet" "#/components/schemas/Pet" None true
                     (options v3) _)).
    discriminate.
  - refine (proj1 (parse_ref_by_name None None [] "Pet" "#/components/schemas/Pet" None true
                     (options v4) _)).
    discriminate.
Defined.

Lemma parse_optional_default_witness :
  parse (tree (Bare "optional")
           [Bare "string"; KDefault (default_primitive (PString "x")); Bare "optional"])
    (options v3)
  = Return (Some EmptyString)
  ∧ parse (tree (Bare "optional") [Bare "string"; Bare "optional"]) (options v3)
    = Return (Some ".optional()").
Proof.
  split.
  - apply (proj1 (parse_optional_default None None _ (options v3))).
    right. left. reflexivity.
  - apply (proj2 (parse_optional_default None None _ (options v3))).
    intros Hex. repeat (apply Exists_cons in Hex as [Hex|Hex]; [discriminate|]).
    by apply Exists_nil in Hex.
Defined.

Lemma parse_reads_options_witness :
  parse (tree (KUnion [Bare "string"; Bare "number"]) []) (options v3)
  = parse (tree (KUnion [Bare "string"; Bare "number"]) [])
      {| options_name := "order"; typeName := Some "Order"; description := None;
         keysToOmit := Some ["id"]; mapper := None;
         coercion := Some (coercion_object None (Some false) None);
         wrapOutput := None; rawSchema := (); version := v3 |}.
Proof.
  apply parse_reads_options. repeat split. by intros [].
Defined.

Lemma parse_returns_witness :
  exists output,
    parse (tree (KObject [("tags", [KArray [Bare "string"] None None None; Bare "x-unknown"])]
                   [pet_ref] None) []) (options v4)
    = Return output.
Proof. apply parse_returns. reflexivity. Defined.

Lemma parse_object_mapped_witness :
  parse (tree (KObject [("id", [Bare "array"]); ("name", [Bare "string"; KName "label"])]
                 [] None) [])
    {| options_name := "pet"; typeName := None; description := None; keysToOmit := None;
       mapper := Some {[ "id" := "z.bigint()"; "label" := "z.string().max(8)" ]};
       coercion := None; wrapOutput := None; rawSchema := (); version := v3 |}
  = Return (Some ("z.object({" +:+ LF +:+ "    "
                  +:+ DQ +:+ "id" +:+ DQ +:+ ": z.bigint()," +:+ LF
                  +:+ DQ +:+ "name" +:+ DQ +:+ ": z.string().max(8)" +:+ LF
                  +:+ "    })")).
Proof.
  refine (parse_object_mapped None None []
            [("id", [Bare "array"]); ("name", [Bare "string"; KName "label"])] None
            {| options_name := "pet"; typeName := None; description := None;
               keysToOmit := None;
               mapper := Some {[ "id" := "z.bigint()"; "label" := "z.string().max(8)" ]};
               coercion := None; wrapOutput := None; rawSchema := (); version := v3 |}
            {[ "id" := "z.bigint()"; "label" := "z.string().max(8)" ]} eq_refl _).
  intros pname schemas Hin.
  apply elem_of_cons in Hin as [[= -> ->]|Hin]; [reflexivity|].
  apply elem_of_cons in Hin as [[= -> ->]|Hin]; [reflexivity|].
  by apply elem_of_nil in Hin.
Defined.

Lemma parse_union_Permutation_witness :
  parse (tree (KUnion [Bare "string"; Bare "number"; pet_ref]) []) (options v3)
  = parse (tree (KUnion [pet_ref; Bare "number"; Bare "string"]) []) (options v3).
Proof.
  apply parse_union_Permutation.
  - apply (Permutation_cons_app [pet_ref; Bare "number"] []).
    apply (Permutation_cons_app [pet_ref] []). reflexivity.
  - cbn. repeat constructor; rewrite ?elem_of_cons, elem_of_nil; intros Hin;
      repeat destruct Hin as [Hin|Hin]; done.
Defined.

Lemma parse_dropped_keywords_witness :
  zodKeywordMapper.has_handler "optional" = false
  ∨ "optional" ∈ ["ref"; "catchall"; "optional"; "union"; "and"].
Proof.
  exact (parse_dropped_keywords
           (tree (Bare "optional") [KDefault default_object]) (options v3)
           (Some EmptyString) eq_refl eq_refl).
Defined.

Lemma resolvePath_without_group_witness :
  resolvePath app {| output := Some {| output_path := "clients" |}; group := None |}
    "getPet.ts" None pets
  = Return "/app/src/gen/clients/getPet.ts".
Proof.
  refine (resolvePath_without_group app _ "getPet.ts" None pets eq_refl _). by left.
Defined.

Lemma resolvePath_Throw_witness :
  resolvePath app by_path "getPet.ts" None
    (Some {| options_group := Some {| tag := Some "pet"; path := None |} |})
  = Throw.
Proof.
  apply resolvePath_Throw. split; [reflexivity|].
  exists {| group_type := group_path; group_name := None |}. by repeat split.
Defined.

Lemma groupName_first_segment_witness :
  groupName {| group_type := group_path; group_name := None |}
    {| ctx_group := Some "/pets/{petId}/photos" |} = Return "pets"
  ∧ groupName {| group_type := group_path; group_name := None |}
      {| ctx_group := Some "/pets" |} = Return "pets"
  ∧ groupName {| group_type := group_path; group_name := None |}
      {| ctx_group := Some "pets" |} = Return "undefined".
Proof.
  exact (groupName_first_segment {| group_type := group_path; group_name := None |}
           "pets" "{petId}/photos" eq_refl eq_refl eq_refl).
Defined.
